(** * WhoFi CSI processing server: a model of [docker/csi_processor.py]

    The development embeds the [CSIProcessor] class: the MQTT message
    handler, the per-node bounded buffers, the RSSI distance estimate, the
    three-anchor trilateration and the publication of a position.

    Numbers are IEEE 754 binary64 values ([PrimFloat.float]), which is what
    numpy computes with: [np.mean] returns an [np.float64], so every distance
    is one, and so is every intermediate value of the trilateration (an
    integer coordinate read from the YAML configuration is promoted when it
    meets a distance; for coordinates of ordinary size the promotion is
    exact).  In particular a division by zero does not raise: it yields an
    infinity or a NaN, as numpy scalars do.

    The MQTT client and the logger are kept as the lists of what was
    published and logged; the clock reading of [datetime.now()] is an input
    of each handler, as its ISO 8601 text.  Of the configuration only
    [node_positions] is read by the handlers; [self.positions] is never
    used, and [on_connect] only subscribes: the loop takes the messages
    delivered as they come. *)

From Stdlib Require Import Floats ZArith Lia Ascii String.
From stdpp Require Import base strings list gmap.

Set Default Proof Using "Type".
Set Warnings "-inexact-float,-register-all".

(** ** JSON values and Python exceptions *)

(** The value [json.loads] returns. *)
Inductive json : Type :=
| JNull
| JBool (b : bool)
| JInt (z : Z)
| JFloat (f : float)
| JStr (s : string)
| JList (l : list json)
| JDict (d : list (string * json)).

(** The exceptions the handlers can meet; all of them derive from
    [Exception].  [JSONDecodeError] stands for any failure of
    [json.loads(msg.payload.decode())], [NumpyError] for any exception
    [np.mean] raises. *)
Inductive exn : Type :=
| KeyError (key : string)
| IndexError
| TypeError
| AttributeError
| JSONDecodeError
| NumpyError.

Inductive result (A : Type) : Type :=
| Ok (a : A)
| Raise (e : exn).
Arguments Ok {A} a.
Arguments Raise {A} e.

(** ** Insertion-ordered dictionaries

    A Python [dict] iterates in insertion order and the order decides which
    nodes a solve uses, so the dictionaries that are iterated are kept as
    association lists. *)
Module Dict.
Section Dict.
Context {V : Type}.

Fixpoint get (k : string) (d : list (string * V)) : option V :=
  match d with
  | [] => None
  | (k', v) :: d' => if decide (k' = k) then Some v else get k d'
  end.

(** [d[k] = v]: an existing key keeps its place, a new one goes last. *)
Fixpoint set (k : string) (v : V) (d : list (string * V)) : list (string * V) :=
  match d with
  | [] => [(k, v)]
  | (k', v') :: d' =>
      if decide (k' = k) then (k', v) :: d' else (k', v') :: set k v d'
  end.

(** In-place update of the object stored under [k]. *)
Fixpoint alter (f : V → V) (k : string) (d : list (string * V)) : list (string * V) :=
  match d with
  | [] => []
  | (k', v') :: d' =>
      if decide (k' = k) then (k', f v') :: d' else (k', v') :: alter f k d'
  end.

(** [d[k]]: a missing key raises. *)
Definition getitem (k : string) (d : list (string * V)) : result V :=
  match get k d with
  | Some v => Ok v
  | None => Raise (KeyError k)
  end.

Definition keys (d : list (string * V)) : list string := d.*1.

(** [defaultdict.__getitem__] with default factory [mk]: a missing key is
    inserted with a fresh default before the value is returned. *)
Definition getitem_default (mk : V) (k : string) (d : list (string * V))
  : V * list (string * V) :=
  match get k d with
  | Some v => (v, d)
  | None => (mk, d ++ [(k, mk)])
  end.
End Dict.
End Dict.

(** [data[k]] on a decoded payload. *)
Definition json_getitem (data : json) (k : string) : result json :=
  match data with
  | JDict d =>
      match Dict.get k d with
      | Some v => Ok v
      | None => Raise (KeyError k)
      end
  | _ => Raise TypeError
  end.

(** [data.get(k, default)] on a decoded payload. *)
Definition json_get (data : json) (k : string) (dflt : json) : result json :=
  match data with
  | JDict d => Ok (default dflt (Dict.get k d))
  | _ => Raise AttributeError
  end.

(** ** The processor's data *)

(** One buffered sample: the dictionary [process_csi_data] appends. *)
Record measurement : Type := Measurement {
  timestamp : json;
  rssi : json;
  csi_data : json;
  channel : json;
  rate : json;
}.

(** The record [update_node_stats] stores; [last_seen] is the clock reading. *)
Record node_stats : Type := NodeStats {
  packets : json;
  enabled : json;
  uptime : json;
  last_seen : string;
}.

Inductive log_record : Type :=
| LogError (prefix : string) (e : exn)
| LogInfo (text : string).

(** [deque(maxlen=100)]: a list, oldest sample first. *)
Definition maxlen : nat := 100.

Definition deque_append {A} (d : list A) (x : A) : list A :=
  let d' := d ++ [x] in
  if maxlen <? length d' then tail d' else d'.

(** The instance attributes the handlers touch.  [mqtt_client] keeps what
    was handed to [mqtt_client.publish] (topic and payload, oldest first) and
    [logger] what was logged.  [node_positions] is the configured registry:
    node identity to the coordinate list given to [np.array]. *)
Record processor : Type := Processor {
  node_positions : gmap string (list float);
  nodes : gmap string node_stats;
  csi_buffer : list (string * list measurement);
  mqtt_client : list (string * json);
  logger : list log_record;
}.

Definition set_nodes (f : gmap string node_stats → gmap string node_stats)
    (s : processor) : processor :=
  Processor (node_positions s) (f (nodes s)) (csi_buffer s) (mqtt_client s) (logger s).
Definition set_csi_buffer (b : list (string * list measurement))
    (s : processor) : processor :=
  Processor (node_positions s) (nodes s) b (mqtt_client s) (logger s).
Definition publish (topic : string) (payload : json) (s : processor) : processor :=
  Processor (node_positions s) (nodes s) (csi_buffer s)
    (mqtt_client s ++ [(topic, payload)]) (logger s).
Definition log_emit (r : log_record) (s : processor) : processor :=
  Processor (node_positions s) (nodes s) (csi_buffer s) (mqtt_client s)
    (logger s ++ [r]).

(** [CSIProcessor.__init__] with the registry of the configuration file. *)
Definition init (positions : gmap string (list float)) : processor :=
  Processor positions ∅ [] [] [].

(** ** Methods that may raise: state and exception passing

    A raised exception keeps the mutations made before it. *)
Definition M (A : Type) : Type := processor → result A * processor.

Definition ret {A} (a : A) : M A := λ s, (Ok a, s).
Definition raise {A} (e : exn) : M A := λ s, (Raise e, s).
Definition bind {A B} (m : M A) (k : A → M B) : M B :=
  λ s, match m s with
       | (Ok a, s') => k a s'
       | (Raise e, s') => (Raise e, s')
       end.
Definition lift {A} (r : result A) : M A := λ s, (r, s).
Definition modify (f : processor → processor) : M () := λ s, (Ok (), f s).
Definition gets {A} (f : processor → A) : M A := λ s, (Ok (f s), s).

(** [try: body except Exception as e: handler e]. *)
Definition try_except {A} (body : M A) (handler : exn → M A) : M A :=
  λ s, match body s with
       | (Ok a, s') => (Ok a, s')
       | (Raise e, s') => handler e s'
       end.

Declare Scope py_scope.
Delimit Scope py_scope with py.
Notation "'let*' x := m 'in' k" := (bind m (λ x, k))
  (at level 10, x name, m at level 100, k at level 200, only parsing) : py_scope.
Notation "m ;;; k" := (bind m (λ _, k))
  (at level 100, k at level 200, right associativity, only parsing) : py_scope.

(** ** The numeric library

    [np.mean], the power operator on binary64 scalars and [round] are
    numpy's and Python's; the model is stated for any implementation of
    them.  [np_mean] is [None] when numpy raises (a non-numeric sample),
    [float_pow b e] is [b ** e] and [py_round x n] is [round(x, n)]. *)
Class Numerics : Type := {
  np_mean : list json → option float;
  float_pow : float → float → float;
  py_round : float → Z → float;
}.

(** ** The methods of [CSIProcessor] *)

(** A message as [on_message] sees it: the topic, and what
    [json.loads(msg.payload.decode())] makes of the payload ([None] when the
    bytes do not decode). *)
Record message : Type := Message {
  topic : string;
  payload : option json;
}.

(** [str.split(sep)] for a one-character separator. *)
Fixpoint split_on (sep : Ascii.ascii) (s : string) : list string :=
  match s with
  | EmptyString => [EmptyString]
  | String c s' =>
      if Ascii.eqb c sep then EmptyString :: split_on sep s'
      else match split_on sep s' with
           | [] => [String c EmptyString]
           | w :: ws => String c w :: ws
           end
  end.

(** [l[i]] on a Python list. *)
Definition index {A} (l : list A) (i : nat) : result A :=
  match l !! i with
  | Some a => Ok a
  | None => Raise IndexError
  end.

(** [list(buffer)[-k:]]: the last [k] samples, all of them when there are
    fewer. *)
Definition last_n {A} (k : nat) (l : list A) : list A :=
  drop (length l - k) l.

(** The six coefficients and Cramer's rule of [trilaterate]
    (lines 124-132); [v ** 2] is the product [v * v]. *)
Definition cramer (p1 p2 p3 : float * float) (r1 r2 r3 : float) : float * float :=
  let '(x1, y1) := p1 in
  let '(x2, y2) := p2 in
  let '(x3, y3) := p3 in
  (let A := 2 * x2 - 2 * x1 in
   let B := 2 * y2 - 2 * y1 in
   let C := r1 * r1 - r2 * r2 - x1 * x1 + x2 * x2 - y1 * y1 + y2 * y2 in
   let D := 2 * x3 - 2 * x2 in
   let E := 2 * y3 - 2 * y2 in
   let F := r2 * r2 - r3 * r3 - x2 * x2 + x3 * x3 - y2 * y2 + y3 * y3 in
   let x := (C * E - F * B) / (E * A - B * D) in
   let y := (C * D - A * F) / (B * D - A * E) in
   (x, y))%float.

Definition result_bind {A B} (r : result A) (k : A → result B) : result B :=
  match r with
  | Ok a => k a
  | Raise e => Raise e
  end.
Notation "'try*' x := r 'in' k" := (result_bind r (λ x, k))
  (at level 10, x name, r at level 100, k at level 200, only parsing) : py_scope.

(** [self.node_positions[k]]. *)
Definition position_of (positions : gmap string (list float)) (k : string)
    : result (list float) :=
  match positions !! k with
  | Some p => Ok p
  | None => Raise (KeyError k)
  end.

(** The body of the [try] in [trilaterate]. *)
Definition trilaterate_try (positions : gmap string (list float))
    (distances : list (string * float)) : result (float * float) :=
  (let nodes := take 3 (Dict.keys distances) in
   try* n1 := index nodes 0 in
   try* p1 := position_of positions n1 in
   try* n2 := index nodes 1 in
   try* p2 := position_of positions n2 in
   try* n3 := index nodes 2 in
   try* p3 := position_of positions n3 in
   try* r1 := Dict.getitem n1 distances in
   try* r2 := Dict.getitem n2 distances in
   try* r3 := Dict.getitem n3 distances in
   try* x2 := index p2 0 in
   try* x1 := index p1 0 in
   try* y2 := index p2 1 in
   try* y1 := index p1 1 in
   try* x3 := index p3 0 in
   try* y3 := index p3 1 in
   Ok (cramer (x1, y1) (x2, y2) (x3, y3) r1 r2 r3))%py.

Definition trilaterate (distances : list (string * float))
    : M (option (float * float)) :=
  try_except
    (let* positions := gets node_positions in
     let* position := lift (trilaterate_try positions distances) in
     ret (Some position))%py
    (λ e, modify (log_emit (LogError "Trilateration error" e)) ;;; ret None)%py.

(** The dictionary display of [process_csi_data] (lines 65-71): the sample
    built from a decoded payload, its entries evaluated in order. *)
Definition sample_of (data : json) : result measurement :=
  (try* ts := json_getitem data "timestamp" in
   try* rs := json_getitem data "rssi" in
   try* cs := json_get data "csi_data" (JList []) in
   try* ch := json_getitem data "channel" in
   try* rt := json_getitem data "rate" in
   Ok (Measurement ts rs cs ch rt))%py.

(** The guard of line 85: the node is in the registry and its buffer holds
    a sample. *)
Definition qualifies (positions : gmap string (list float))
    (item : string * list measurement) : bool :=
  bool_decide (is_Some (positions !! item.1)) && (0 <? length item.2).

Section WithNumerics.
Context `{Numerics}.

(** The two payloads of [publish_position], before [json.dumps]. *)
Definition position_payload (position : float * float) (now : string) : json :=
  JDict [
    ("x", JFloat (py_round position.1 2));
    ("y", JFloat (py_round position.2 2));
    ("timestamp", JStr now);
    ("confidence", JFloat 0.8);
    ("source", JStr "csi_trilateration") ].

Definition tracker_payload (position : float * float) : json :=
  JDict [
    ("latitude", JFloat (position.2 / 100));
    ("longitude", JFloat (position.1 / 100));
    ("gps_accuracy", JFloat 2);
    ("source_type", JStr "router") ].

Definition publish_position (position : float * float) (now : string) : M () :=
  (modify (publish "homeassistant/sensor/whofi_position/state"
             (position_payload position now)) ;;;
   modify (publish "homeassistant/device_tracker/whofi_tracker/attributes"
             (tracker_payload position)) ;;;
   modify (log_emit (LogInfo "Published position")))%py.

(** The distance of one node from its buffer (lines 87-95). *)
Definition estimate_distance (buffer : list measurement) : result float :=
  let recent_rssi := rssi <$> last_n 10 buffer in
  match np_mean recent_rssi with
  | None => Raise NumpyError
  | Some avg_rssi =>
      (let A := (-30) in
       let n := 2 in
       Ok (float_pow 10 ((A - avg_rssi) / (10 * n))))%float
  end.

(** The loop over [self.csi_buffer.items()] (lines 84-96), from the
    [distances] collected so far. *)
Fixpoint estimate_distances (positions : gmap string (list float))
    (items : list (string * list measurement))
    (distances : list (string * float)) : result (list (string * float)) :=
  match items with
  | [] => Ok distances
  | (node_mac, buffer) :: items' =>
      if qualifies positions (node_mac, buffer) then
        (try* distance := estimate_distance buffer in
         estimate_distances positions items'
           (Dict.set node_mac distance distances))%py
      else estimate_distances positions items' distances
  end.

(** Lines 98-102: the solve and the publication, given the distances. *)
Definition solve_and_publish (distances : list (string * float))
    (now : string) : M () :=
  (if 3 <=? length distances then
     let* position := trilaterate distances in
     match position with
     | Some p => publish_position p now
     | None => ret ()
     end
   else ret ())%py.

Definition calculate_position (now : string) : M () :=
  try_except
    (let* positions := gets node_positions in
     let* items := gets csi_buffer in
     let* distances := lift (estimate_distances positions items []) in
     solve_and_publish distances now)%py
    (λ e, modify (log_emit (LogError "Error calculating position" e)))%py.

(** [self.csi_buffer[node_mac]]: the buffer of the node, created empty
    when the node is new. *)
Definition csi_buffer_getitem (node_mac : string) : M (list measurement) :=
  λ s, let '(buffer, d) := Dict.getitem_default [] node_mac (csi_buffer s) in
       (Ok buffer, set_csi_buffer d s).

(** [.append(sample)] on the buffer object stored under [node_mac]. *)
Definition csi_buffer_append (node_mac : string) (sample : measurement) : M () :=
  modify (λ s, set_csi_buffer
                 (Dict.alter (λ d, deque_append d sample) node_mac (csi_buffer s)) s).

(** The buffer is looked up (and created) first, then the sample is built
    from the payload, then it is appended: Python evaluates the callee
    before the arguments of a call. *)
Definition process_csi_data (node_mac : string) (data : json) (now : string)
    : M () :=
  (let* _ := csi_buffer_getitem node_mac in
   let* sample := lift (sample_of data) in
   csi_buffer_append node_mac sample ;;;
   let* n := gets (λ s, length (csi_buffer s)) in
   if 3 <=? n then calculate_position now else ret ())%py.

Definition update_node_stats (node_mac : string) (stats : json) (now : string)
    : M () :=
  (let* pk := lift (json_get stats "packets" (JInt 0)) in
   let* en := lift (json_get stats "enabled" (JBool false)) in
   let* up := lift (json_get stats "uptime" (JInt 0)) in
   modify (set_nodes (insert node_mac (NodeStats pk en up now))))%py.

(** The body of the [try] in [on_message]. *)
Definition on_message_try (msg : message) (now : string) : M () :=
  (let topic_parts := split_on "/"%char (topic msg) in
   if 4 <=? length topic_parts then
     let* node_mac := lift (index topic_parts 2) in
     let* data_type := lift (index topic_parts 3) in
     let* data := lift (from_option Ok (Raise JSONDecodeError) (payload msg)) in
     if decide (data_type = "data") then process_csi_data node_mac data now
     else if decide (data_type = "stats") then update_node_stats node_mac data now
     else ret ()
   else ret ())%py.

Definition on_message (msg : message) (now : string) : M () :=
  try_except (on_message_try msg now)
    (λ e, modify (log_emit (LogError "Error processing message" e))).

(** The MQTT loop: the messages delivered, each with the clock reading of
    its delivery, handled one after the other. *)
Fixpoint loop (events : list (message * string)) : M () :=
  match events with
  | [] => ret ()
  | (msg, now) :: events' => (on_message msg now ;;; loop events')%py
  end.
End WithNumerics.

(** ** A reference numeric library

    Binary64 implementations of the three library functions, used to run
    the model on concrete messages: the mean as a left-to-right sum divided
    by the count, the power through the series of the logarithm and of the
    exponential, and the rounding as numpy does it (scale, round to the
    nearest integer, unscale). *)
Module Reference.
Definition float_of_Z (z : Z) : float :=
  match z with
  | Z0 => 0%float
  | Zpos _ => PrimFloat.of_uint63 (Uint63.of_Z z)
  | Zneg p => (- PrimFloat.of_uint63 (Uint63.of_Z (Zpos p)))%float
  end.

Definition as_number (j : json) : option float :=
  match j with
  | JInt z => Some (float_of_Z z)
  | JFloat f => Some f
  | JBool b => Some (if b then 1 else 0)%float
  | _ => None
  end.

Definition mean (samples : list json) : option float :=
  fs ← mapM as_number samples;
  Some (fold_left PrimFloat.add fs 0 / float_of_Z (Z.of_nat (length fs)))%float.

Fixpoint ln_terms (fuel : nat) (z2 term k acc : float) : float :=
  match fuel with
  | O => acc
  | S fuel' => ln_terms fuel' z2 (term * z2) (k + 2) (acc + term / k)
  end%float.

Definition ln (b : float) : float :=
  (let z := (b - 1) / (b + 1) in 2 * ln_terms 200 (z * z) z 1 0)%float.

Fixpoint exp_terms (fuel : nat) (t term k acc : float) : float :=
  match fuel with
  | O => acc
  | S fuel' => exp_terms fuel' t (term * t / k) (k + 1) (acc + term)
  end%float.

Fixpoint squarings (n : nat) (x : float) : float :=
  match n with
  | O => x
  | S n' => squarings n' (x * x)%float
  end.

Definition exp (y : float) : float :=
  squarings 10 (exp_terms 20 (y / 1024) 1 1 0)%float.

Definition pow (b e : float) : float := exp (e * ln b)%float.

Definition rint (v : float) : float :=
  (let big := 4503599627370496 in
   if abs v <? big then (if v <? 0 then (v - big) + big else (v + big) - big)
   else v)%float.

Definition round (x : float) (ndigits : Z) : float :=
  (let scale := float_of_Z (10 ^ ndigits) in rint (x * scale) / scale)%float.

#[export] Instance numerics : Numerics :=
  {| np_mean := mean; float_pow := pow; py_round := round |}.
End Reference.

(** ** What a message does, read off the message

    The functions below describe the effect of [on_message] on the buffers
    and on what is published; the properties relate them to the handler. *)

(** The node and the kind a topic addresses (lines 47-50). *)
Definition addressed (t : string) : option (string * string) :=
  let topic_parts := split_on "/"%char t in
  if 4 <=? length topic_parts then
    match topic_parts !! 2, topic_parts !! 3 with
    | Some node_mac, Some data_type => Some (node_mac, data_type)
    | _, _ => None
    end
  else None.

(** A message that reaches [process_csi_data]: the node, and the sample it
    carries or the exception its payload raises. *)
Definition data_sample (msg : message) : option (string * result measurement) :=
  match addressed (topic msg), payload msg with
  | Some (node_mac, data_type), Some data =>
      if decide (data_type = "data") then Some (node_mac, sample_of data) else None
  | _, _ => None
  end.

Definition next_buffer (msg : message) (b : list (string * list measurement))
    : list (string * list measurement) :=
  match data_sample msg with
  | None => b
  | Some (node_mac, r) =>
      let b' := (Dict.getitem_default [] node_mac b).2 in
      match r with
      | Ok sample => Dict.alter (λ d, deque_append d sample) node_mac b'
      | Raise _ => b'
      end
  end.

(** The samples a run of messages appends to the buffer of [node_mac], in
    arrival order. *)
Definition samples_for (node_mac : string) (msgs : list message) : list measurement :=
  omap (λ msg, match data_sample msg with
               | Some (k, Ok sample) => if decide (k = node_mac) then Some sample else None
               | _ => None
               end) msgs.

(** The nodes a solve can use, in the iteration order of the buffers. *)
Definition qualifying (s : processor) : list (string * list measurement) :=
  List.filter (qualifies (node_positions s)) (csi_buffer s).

Section Cycle.
Context `{Numerics}.

(** The position one fusion cycle finds, if any. *)
Definition cycle_position (positions : gmap string (list float))
    (b : list (string * list measurement)) : option (float * float) :=
  match estimate_distances positions b [] with
  | Ok distances =>
      if 3 <=? length distances then
        match trilaterate_try positions distances with
        | Ok position => Some position
        | Raise _ => None
        end
      else None
  | Raise _ => None
  end.

Definition publications (position : float * float) (now : string)
    : list (string * json) :=
  [ ("homeassistant/sensor/whofi_position/state", position_payload position now);
    ("homeassistant/device_tracker/whofi_tracker/attributes",
     tracker_payload position) ].

Definition cycle_publications (positions : gmap string (list float))
    (b : list (string * list measurement)) (now : string) : list (string * json) :=
  match cycle_position positions b with
  | Some position => publications position now
  | None => []
  end.

(** What [on_message] publishes for a message met with buffers [b]. *)
Definition published_on (positions : gmap string (list float)) (msg : message)
    (now : string) (b : list (string * list measurement)) : list (string * json) :=
  match data_sample msg with
  | Some (_, Ok _) =>
      let b' := next_buffer msg b in
      if 3 <=? length b' then cycle_publications positions b' now else []
  | _ => []
  end.

(** What a run of messages publishes, from buffers [b]. *)
Fixpoint published_along (positions : gmap string (list float))
    (events : list (message * string)) (b : list (string * list measurement))
    : list (string * json) :=
  match events with
  | [] => []
  | (msg, now) :: events' =>
      published_on positions msg now b ++
      published_along positions events' (next_buffer msg b)
  end.
End Cycle.

(** ** Published records *)

(** The keys of a published payload, in order. *)
Definition payload_keys (j : json) : list string :=
  match j with
  | JDict d => Dict.keys d
  | _ => []
  end.

Definition result_fields : list string :=
  ["x"; "y"; "timestamp"; "confidence"; "source"].

Definition tracker_fields : list string :=
  ["latitude"; "longitude"; "gps_accuracy"; "source_type"].

(** A publication is a position record or a tracker record, on its topic. *)
Definition publication_shape (m : string * json) : Prop :=
  (m.1 = "homeassistant/sensor/whofi_position/state"
   ∧ payload_keys m.2 = result_fields)
  ∨ (m.1 = "homeassistant/device_tracker/whofi_tracker/attributes"
     ∧ payload_keys m.2 = tracker_fields).

(** Two points agree within [tol] on both coordinates. *)
Definition within (tol : float) (p q : float * float) : bool :=
  (abs (p.1 - q.1) <=? tol)%float && (abs (p.2 - q.2) <=? tol)%float.

(** ** Malformed messages *)

(** The fields [process_csi_data] reads with a subscript. *)
Definition required_fields : list string := ["timestamp"; "rssi"; "channel"; "rate"].

(** The decoded payload lacks a required field: the subscript raises. *)
Definition lacks_field (data : json) : Prop :=
  Exists (λ f, ∃ e, json_getitem data f = Raise e) required_fields.

(** The three ways a message can be malformed: its payload does not decode,
    it is a data message whose payload lacks a required field, or its topic
    addresses neither a data nor a stats channel. *)
Inductive malformed (msg : message) : Prop :=
| Undecodable :
    payload msg = None → malformed msg
| MissingField (node_mac : string) (data : json) :
    addressed (topic msg) = Some (node_mac, "data") →
    payload msg = Some data →
    lacks_field data →
    malformed msg
| UnexpectedTopic :
    (∀ node_mac, addressed (topic msg) ≠ Some (node_mac, "data")
                 ∧ addressed (topic msg) ≠ Some (node_mac, "stats")) →
    malformed msg.

(** ** Concrete registries and messages

    The inputs the examples below run the model on, with the reference
    numeric library. *)
Module Scenario.

(** A well-formed data payload with the given signal strength. *)
Definition data (seq : Z) (signal : Z) : json :=
  JDict [("timestamp", JInt seq); ("rssi", JInt signal);
         ("channel", JInt 6); ("rate", JInt 11)].

Definition sample (seq : Z) (signal : Z) : measurement :=
  Measurement (JInt seq) (JInt signal) (JList []) (JInt 6) (JInt 11).

Definition data_event (node_mac : string) (seq signal : Z) : message * string :=
  (Message ("whofi/csi/" +:+ node_mac +:+ "/data") (Some (data seq signal)),
   "2024-05-01T12:00:00").

(** The end-to-end scenario: an equilateral triangle of side 10. *)
Definition triangle : gmap string (list float) :=
  list_to_map [("n1", [0; 0]); ("n2", [10; 0]); ("n3", [5; 8.66])]%float.

(** Three anchors on the x axis. *)
Definition collinear : gmap string (list float) :=
  list_to_map [("n1", [0; 0]); ("n2", [5; 0]); ("n3", [10; 0])]%float.

(** The anchors of the symmetric test case. *)
Definition isosceles : gmap string (list float) :=
  list_to_map [("n1", [0; 0]); ("n2", [10; 0]); ("n3", [5; 10])]%float.

Definition four_nodes : gmap string (list float) :=
  list_to_map [("n1", [0; 0]); ("n2", [10; 0]); ("n3", [5; 8.66]);
               ("n4", [5; 3])]%float.

Definition one_round : list (message * string) :=
  [data_event "n1" 1 (-36); data_event "n2" 2 (-36); data_event "n3" 3 (-36)].

(** Two registered nodes and a stranger report. *)
Definition with_stranger : list (message * string) :=
  [data_event "n1" 1 (-36); data_event "n2" 2 (-36); data_event "zz" 3 (-36)].

(** One node reports 101 samples. *)
Definition burst : list (message * string) :=
  (λ i, data_event "n1" (Z.of_nat i) (-40)) <$> seq 0 101.

Definition burst_buffer : list measurement :=
  (λ i, sample (Z.of_nat i) (-40)) <$> seq 1 100.

(** A data message without any field, and one whose signal strength is
    not a number. *)
Definition empty_event (node_mac : string) : message * string :=
  (Message ("whofi/csi/" +:+ node_mac +:+ "/data") (Some (JDict [])),
   "2024-05-01T12:00:01").

Definition text_event (node_mac : string) : message * string :=
  (Message ("whofi/csi/" +:+ node_mac +:+ "/data")
     (Some (JDict [("timestamp", JInt 1); ("rssi", JStr "weak");
                   ("channel", JInt 6); ("rate", JInt 11)])),
   "2024-05-01T12:00:02").


(** Three nodes report and a fourth sends a payload without fields. *)
Definition round_and_empty : list (message * string) :=
  one_round ++ [empty_event "n4"].

(** A topic of two levels, with a payload that does not decode. *)
Definition short_topic : message := Message "whofi/csi" None.

(** A node whose signal strength is text, then two nodes with numbers. *)
Definition text_then_two : list (message * string) :=
  [text_event "n1"; data_event "n2" 2 (-36)].

(** The burst once more, with other timestamps, channels and CSI data in
    every sample and ninety older, weaker samples of the first node. *)
Definition other_burst_buffer : list (string * list measurement) :=
  [("n1", replicate 90 (Measurement (JInt 0) (JInt (-90)) (JList [JInt 1]) (JInt 1) (JInt 54))
          ++ replicate 10 (Measurement (JInt 9) (JInt (-36)) (JList [JInt 7]) (JInt 1) (JInt 54)));
   ("n2", [Measurement (JInt 9) (JInt (-36)) (JList []) (JInt 11) (JInt 6)]);
   ("n3", [Measurement (JInt 9) (JInt (-36)) (JList []) (JInt 11) (JInt 6)])].

(** Ten samples of one node and one of two others. *)
Definition recent_buffer : list (string * list measurement) :=
  [("n1", replicate 10 (sample 1 (-36)));
   ("n2", [sample 2 (-36)]);
   ("n3", [sample 3 (-36)])].

Definition stats_event : message * string :=
  (Message "whofi/csi/n1/stats"
     (Some (JDict [("packets", JInt 12); ("enabled", JBool true);
                   ("uptime", JInt 3600)])),
   "2024-05-01T12:00:05").
End Scenario.

(** ** Topics and subscriptions *)




(** The string holds the character. *)
Fixpoint contains (c : Ascii.ascii) (s : string) : bool :=
  match s with
  | EmptyString => false
  | String c' s' => Ascii.eqb c' c || contains c s'
  end.

(** A topic level: a string without separator. *)
Definition level (s : string) : Prop := contains "/"%char s = false.

(** ** Statistics *)

(** The record a message stores with [update_node_stats], and its node. *)
Definition stats_record (msg : message) (now : string) : option (string * node_stats) :=
  match addressed (topic msg), payload msg with
  | Some (node_mac, data_type), Some (JDict d) =>
      if decide (data_type = "stats") then
        Some (node_mac,
              NodeStats (default (JInt 0) (Dict.get "packets" d))
                        (default (JBool false) (Dict.get "enabled" d))
                        (default (JInt 0) (Dict.get "uptime" d)) now)
      else None
  | _, _ => None
  end.

(** The records a run of messages stores for [node_mac], in arrival order. *)
Definition stats_for (node_mac : string) (events : list (message * string))
    : list node_stats :=
  omap (λ ev, match stats_record ev.1 ev.2 with
              | Some (k, r) => if decide (k = node_mac) then Some r else None
              | None => None
              end) events.

(** ** Buffers and solves *)

(** The nodes whose buffer a run of messages looks up, in arrival order
    (with repetitions). *)
Definition touched (msgs : list message) : list string :=
  omap (λ msg, fst <$> data_sample msg) msgs.

(** The first three distances belong to registered nodes whose positions
    have at least two coordinates. *)
Definition solvable (positions : gmap string (list float))
    (distances : list (string * float)) : Prop :=
  ∃ k1 k2 k3 rest,
    Dict.keys distances = k1 :: k2 :: k3 :: rest
    ∧ Forall (λ k, ∃ p, positions !! k = Some p ∧ 2 ≤ length p) [k1; k2; k3].

(** Every registered position has at least two coordinates. *)
Definition planar (positions : gmap string (list float)) : Prop :=
  ∀ k p, positions !! k = Some p → 2 ≤ length p.

(** Two sets of buffers with the same nodes in the same order and, node by
    node, the same signal strengths in the ten most recent samples. *)
Definition recent_alike (b b' : list (string * list measurement)) : Prop :=
  Forall2 (λ item item', item.1 = item'.1
                         ∧ rssi <$> last_n 10 item.2 = rssi <$> last_n 10 item'.2)
    b b'.

(** The nodes of a run of data messages, each once, in the order in which
    they are first heard. *)
Definition first_heard (msgs : list message) : list string :=
  reverse (remove_dups (reverse (touched msgs))).

(** The state the loop reaches from [__init__] on a run of messages. *)
Definition reached `{Numerics} (registry : gmap string (list float))
    (events : list (message * string)) : processor :=
  (loop events (init registry)).2.

(** * Properties *)

(** ** Dictionaries *)
Module DictFacts.
Section DictFacts.
Context {V : Type}.
Implicit Types (d : list (string * V)) (k : string) (v : V).

Lemma get_None k d : Dict.get k d = None ↔ k ∉ Dict.keys d.
Proof.
  induction d as [|[k' v'] d IH]; simpl.
  - split; [intros _; apply not_elem_of_nil | done].
  - case_decide as Hk; subst; rewrite not_elem_of_cons.
    + split; [done | intros [? _]; done].
    + rewrite IH. split; [intros ?; split; congruence | intros [_ ?]; done].
Qed.

Lemma get_Some_elem k v d : Dict.get k d = Some v → (k, v) ∈ d.
Proof.
  induction d as [|[k' v'] d IH]; simpl; [done|].
  case_decide; subst.
  - intros [= ->]. apply elem_of_cons; auto.
  - intros ?. apply elem_of_cons; auto.
Qed.

Lemma elem_get k v d : NoDup (Dict.keys d) → (k, v) ∈ d → Dict.get k d = Some v.
Proof.
  induction d as [|[k' v'] d IH]; simpl.
  - intros _ Hin. by apply elem_of_nil in Hin.
  - intros Hnd Hin. apply NoDup_cons in Hnd as [Hk' Hnd].
    apply elem_of_cons in Hin as [[= -> ->] | Hin].
    + by rewrite decide_True.
    + case_decide as Heq; [|by apply IH]. subst k'.
      exfalso. apply Hk'. apply (list_elem_of_fmap_2 fst) in Hin. exact Hin.
Qed.

Lemma get_app k d d' :
  Dict.get k (d ++ d') =
    match Dict.get k d with Some v => Some v | None => Dict.get k d' end.
Proof.
  induction d as [|[k' v'] d IH]; simpl; [done|]. by case_decide.
Qed.

Lemma keys_alter (f : V → V) k d : Dict.keys (Dict.alter f k d) = Dict.keys d.
Proof.
  induction d as [|[k' v'] d IH]; simpl; [done|].
  case_decide; simpl; [done|]. by f_equal.
Qed.

Lemma get_alter (f : V → V) k k' d :
  Dict.get k' (Dict.alter f k d) =
    if decide (k = k') then f <$> Dict.get k' d else Dict.get k' d.
Proof.
  induction d as [|[k0 v0] d IH]; simpl; [by case_decide|].
  destruct (decide (k0 = k)) as [->|Hne]; simpl.
  - by destruct (decide (k = k')).
  - destruct (decide (k0 = k')) as [->|]; [|exact IH].
    by rewrite decide_False.
Qed.

Lemma set_fresh k v d : k ∉ Dict.keys d → Dict.set k v d = d ++ [(k, v)].
Proof.
  induction d as [|[k' v'] d IH]; simpl; [done|].
  rewrite not_elem_of_cons. intros [Hne Hk].
  rewrite decide_False; [|congruence]. by rewrite IH.
Qed.

Lemma length_set k v d : length (Dict.set k v d) ≤ S (length d).
Proof.
  induction d as [|[k' v'] d IH]; simpl; [lia|].
  case_decide; simpl; lia.
Qed.

Lemma getitem_default_keys mk k d :
  Dict.keys (Dict.getitem_default mk k d).2 =
    if decide (k ∈ Dict.keys d) then Dict.keys d else Dict.keys d ++ [k].
Proof.
  unfold Dict.getitem_default.
  destruct (Dict.get k d) eqn:Hget; simpl.
  - rewrite decide_True; [done|].
    apply get_Some_elem in Hget.
    apply (list_elem_of_fmap_2 fst) in Hget. exact Hget.
  - apply get_None in Hget. rewrite decide_False; [|done].
    unfold Dict.keys. by rewrite fmap_app.
Qed.

Lemma getitem_default_NoDup mk k d :
  NoDup (Dict.keys d) → NoDup (Dict.keys (Dict.getitem_default mk k d).2).
Proof.
  intros Hnd. rewrite getitem_default_keys. case_decide; [done|].
  apply NoDup_app. split_and!; [done| |apply NoDup_singleton].
  intros x Hx Hx'. apply list_elem_of_singleton in Hx'. by subst.
Qed.

Lemma getitem_default_get mk k k' d :
  Dict.get k' (Dict.getitem_default mk k d).2 =
    match Dict.get k' d with
    | Some v => Some v
    | None => if decide (k = k') then Some mk else None
    end.
Proof.
  unfold Dict.getitem_default.
  destruct (Dict.get k d) eqn:Hget; simpl.
  - destruct (Dict.get k' d) eqn:Hget'; [done|].
    case_decide; [congruence | done].
  - rewrite get_app. destruct (Dict.get k' d); [done|]. simpl.
    by case_decide.
Qed.
End DictFacts.
End DictFacts.
Import DictFacts.

(** ** The bounded buffer *)
Section Deque.
Context {A : Type}.
Implicit Types (d l : list A) (x : A).

Lemma last_n_length k l : length (last_n k l) = k `min` length l.
Proof. unfold last_n. rewrite length_drop. lia. Qed.

Lemma last_n_suffix k l : last_n k l `suffix_of` l.
Proof. apply suffix_drop. Qed.

Lemma last_n_all k l : length l ≤ k → last_n k l = l.
Proof.
  intros Hle. unfold last_n. by replace (length l - k) with 0 by lia.
Qed.

Lemma drop_drop_app n m l l' :
  m ≤ length l → drop n (drop m l ++ l') = drop (m + n) (l ++ l').
Proof.
  intros Hle. rewrite <- (take_drop m l) at 2. rewrite <- (assoc_L (++)).
  by rewrite drop_app_add' by (by rewrite length_take_le).
Qed.

Lemma last_n_idemp_app k l l' :
  last_n k (last_n k l ++ l') = last_n k (l ++ l').
Proof.
  unfold last_n at 1 3. rewrite !length_app, last_n_length.
  unfold last_n. rewrite drop_drop_app by lia. f_equal. lia.
Qed.

Lemma tail_drop l : tail l = drop 1 l.
Proof. by destruct l. Qed.

Lemma deque_append_last_n d x :
  length d ≤ maxlen → deque_append d x = last_n maxlen (d ++ [x]).
Proof.
  intros Hle. unfold deque_append, last_n. rewrite length_app. simpl.
  destruct (Nat.ltb_spec maxlen (length d + 1)) as [Hlt|Hge].
  - rewrite tail_drop. f_equal. lia.
  - by replace (length d + 1 - maxlen) with 0 by lia.
Qed.

Lemma deque_append_length d x :
  length d ≤ maxlen → length (deque_append d x) ≤ maxlen.
Proof.
  intros Hle. rewrite deque_append_last_n, last_n_length by done. lia.
Qed.

Lemma deque_append_nonempty d x : 0 < length (deque_append d x).
Proof.
  unfold deque_append. rewrite tail_drop.
  case_match; rewrite ?length_drop, length_app; simpl.
  - apply Nat.ltb_lt in H. rewrite length_app in H. simpl in H.
    unfold maxlen in H. lia.
  - lia.
Qed.

Lemma deque_append_last d x : last (deque_append d x) = Some x.
Proof.
  unfold deque_append. case_match eqn:Hlt; [|apply last_snoc].
  apply Nat.ltb_lt in Hlt. rewrite length_app in Hlt. simpl in Hlt.
  destruct d as [|y d]; simpl in *; [unfold maxlen in Hlt; lia|].
  apply last_snoc.
Qed.

(** Appending a run of samples keeps the last [maxlen] of what was there
    and what arrived. *)
Lemma deque_appends d l :
  length d ≤ maxlen → fold_left deque_append l d = last_n maxlen (d ++ l).
Proof.
  revert d. induction l as [|x l IH]; intros d Hle; simpl.
  - rewrite app_nil_r. by rewrite last_n_all.
  - rewrite IH by by apply deque_append_length.
    rewrite deque_append_last_n by done.
    rewrite last_n_idemp_app. by rewrite <- app_assoc.
Qed.
End Deque.

(** ** The handlers, step by step *)

#[local] Arguments Nat.leb : simpl nomatch.
#[local] Arguments Nat.ltb : simpl nomatch.
#[local] Arguments trilaterate : simpl never.
#[local] Arguments publish_position : simpl never.
#[local] Arguments calculate_position : simpl never.
#[local] Arguments process_csi_data : simpl never.
#[local] Arguments update_node_stats : simpl never.

Ltac run :=
  unfold try_except, bind, ret, raise, lift, modify, gets, result_bind; simpl.

Lemma trilaterate_run distances s :
  trilaterate distances s =
    match trilaterate_try (node_positions s) distances with
    | Ok position => (Ok (Some position), s)
    | Raise e => (Ok None, log_emit (LogError "Trilateration error" e) s)
    end.
Proof. unfold trilaterate. run. by destruct (trilaterate_try _ _). Qed.

Section Steps.
Context `{Numerics}.

Lemma publish_position_run position now s :
  publish_position position now s =
    (Ok (), Processor (node_positions s) (nodes s) (csi_buffer s)
              (mqtt_client s ++ publications position now)
              (logger s ++ [LogInfo "Published position"])).
Proof.
  unfold publish_position, publications. run.
  unfold log_emit, publish; simpl. by rewrite <- (assoc_L (++)).
Qed.

(** A fusion cycle never raises; it leaves the registry, the statistics and
    the buffers alone, and publishes the position it finds, if any. *)
Lemma calculate_position_run now s :
  ∃ l, calculate_position now s =
    (Ok (), Processor (node_positions s) (nodes s) (csi_buffer s)
              (mqtt_client s ++ cycle_publications (node_positions s) (csi_buffer s) now)
              (logger s ++ l)).
Proof.
  destruct s as [pos nd b out lg].
  unfold calculate_position, cycle_publications, cycle_position, solve_and_publish.
  run. destruct (estimate_distances pos b []) as [distances|e]; simpl.
  - destruct (3 <=? length distances); simpl.
    + rewrite trilaterate_run. simpl.
      destruct (trilaterate_try pos distances) as [position|e]; simpl.
      * eexists. unfold log_emit, publish, publications. simpl.
        by rewrite <- (assoc_L (++)).
      * exists [LogError "Trilateration error" e].
        unfold log_emit; simpl. by rewrite app_nil_r.
    + exists []. by rewrite !app_nil_r.
  - exists [LogError "Error calculating position" e].
    unfold log_emit; simpl. by rewrite app_nil_r.
Qed.

Lemma process_csi_data_run node_mac data now s :
  let b' := (Dict.getitem_default [] node_mac (csi_buffer s)).2 in
  match sample_of data with
  | Raise e =>
      process_csi_data node_mac data now s = (Raise e, set_csi_buffer b' s)
  | Ok sample =>
      let b'' := Dict.alter (λ d, deque_append d sample) node_mac b' in
      ∃ l, process_csi_data node_mac data now s =
        (Ok (), Processor (node_positions s) (nodes s) b''
           (mqtt_client s ++
              if 3 <=? length b'' then cycle_publications (node_positions s) b'' now
              else [])
           (logger s ++ l))
  end.
Proof.
  destruct s as [pos nd b out lg]. simpl.
  unfold process_csi_data, csi_buffer_getitem, csi_buffer_append. run.
  destruct (Dict.getitem_default [] node_mac b) as [buffer b'] eqn:Hb. simpl.
  destruct (sample_of data) as [sample|e]; simpl; [|done].
  destruct (3 <=? _); simpl.
  - match goal with |- context [calculate_position now ?s] =>
      destruct (calculate_position_run now s) as [l ->] end.
    simpl. by exists l.
  - exists []. by rewrite !app_nil_r.
Qed.
End Steps.

Section Handler.
Context `{Numerics}.

Lemma update_node_stats_run node_mac stats now s :
  match stats with
  | JDict d =>
      update_node_stats node_mac stats now s =
        (Ok (), set_nodes (insert node_mac
                   (NodeStats (default (JInt 0) (Dict.get "packets" d))
                              (default (JBool false) (Dict.get "enabled" d))
                              (default (JInt 0) (Dict.get "uptime" d)) now)) s)
  | _ => update_node_stats node_mac stats now s = (Raise AttributeError, s)
  end.
Proof. by destruct stats. Qed.

(** The handler never raises.  It leaves the registry alone, moves the
    buffers as [next_buffer] says and publishes what [published_on] says. *)
Lemma on_message_run msg now s :
  ∃ nd l, on_message msg now s =
    (Ok (), Processor (node_positions s) nd (next_buffer msg (csi_buffer s))
              (mqtt_client s ++
                 published_on (node_positions s) msg now (csi_buffer s))
              (logger s ++ l)).
Proof.
  unfold on_message, on_message_try, published_on, next_buffer, data_sample,
    addressed.
  destruct msg as [t p]; simpl.
  destruct (4 <=? length (split_on "/" t)); run.
  2:{ exists (nodes s), []. destruct s; simpl. by rewrite !app_nil_r. }
  unfold index.
  destruct (split_on "/" t !! 2) as [node_mac|]; simpl.
  2:{ exists (nodes s), [LogError "Error processing message" IndexError].
      destruct s; simpl. by rewrite !app_nil_r. }
  destruct (split_on "/" t !! 3) as [data_type|]; simpl.
  2:{ exists (nodes s), [LogError "Error processing message" IndexError].
      destruct s; simpl. by rewrite !app_nil_r. }
  destruct p as [data|]; simpl.
  2:{ exists (nodes s), [LogError "Error processing message" JSONDecodeError].
      destruct s; simpl. by rewrite !app_nil_r. }
  destruct (decide (data_type = "data")) as [->|Hdata]; simpl.
  - pose proof (process_csi_data_run node_mac data now s) as Hrun.
    simpl in Hrun. destruct (sample_of data) as [sample|e].
    + destruct Hrun as [l ->]. by exists (nodes s), l.
    + rewrite Hrun. simpl.
      exists (nodes s), [LogError "Error processing message" e].
      destruct s; simpl. by rewrite !app_nil_r.
  - destruct (decide (data_type = "stats")) as [->|Hstats]; simpl.
    + pose proof (update_node_stats_run node_mac data now s) as Hrun.
      destruct data; rewrite Hrun; simpl;
        try (exists (nodes s), [LogError "Error processing message" AttributeError];
             destruct s; simpl; by rewrite !app_nil_r).
      eexists _, []. destruct s; simpl. by rewrite !app_nil_r.
    + exists (nodes s), []. destruct s; simpl. by rewrite !app_nil_r.
Qed.

Lemma on_message_ok msg now s : (on_message msg now s).1 = Ok ().
Proof. by destruct (on_message_run msg now s) as (nd & l & ->). Qed.

Lemma on_message_positions msg now s :
  node_positions (on_message msg now s).2 = node_positions s.
Proof. by destruct (on_message_run msg now s) as (nd & l & ->). Qed.

Lemma on_message_csi_buffer msg now s :
  csi_buffer (on_message msg now s).2 = next_buffer msg (csi_buffer s).
Proof. by destruct (on_message_run msg now s) as (nd & l & ->). Qed.

Lemma on_message_mqtt_client msg now s :
  mqtt_client (on_message msg now s).2 =
    mqtt_client s ++ published_on (node_positions s) msg now (csi_buffer s).
Proof. by destruct (on_message_run msg now s) as (nd & l & ->). Qed.

(** The loop, unrolled at its first message. *)
Lemma loop_cons msg now events s :
  loop ((msg, now) :: events) s = loop events (on_message msg now s).2.
Proof.
  simpl. unfold bind.
  by destruct (on_message_run msg now s) as (nd & l & ->).
Qed.

Lemma loop_ok events s : (loop events s).1 = Ok ().
Proof.
  revert s. induction events as [|[msg now] events IH]; intros s; [done|].
  by rewrite loop_cons.
Qed.

Lemma loop_positions events s :
  node_positions (loop events s).2 = node_positions s.
Proof.
  revert s. induction events as [|[msg now] events IH]; intros s; [done|].
  by rewrite loop_cons, IH, on_message_positions.
Qed.

Lemma loop_csi_buffer events s :
  csi_buffer (loop events s).2 =
    fold_left (λ b msg, next_buffer msg b) events.*1 (csi_buffer s).
Proof.
  revert s. induction events as [|[msg now] events IH]; intros s; [done|].
  by rewrite loop_cons, IH, on_message_csi_buffer.
Qed.
End Handler.

(** ** The buffers along a run *)
Section Buffers.
Implicit Types (b : list (string * list measurement)) (msg : message).

Lemma next_buffer_get msg b k :
  Dict.get k (next_buffer msg b) =
    match data_sample msg with
    | Some (node_mac, r) =>
        if decide (node_mac = k) then
          Some (match r with
                | Ok sample => deque_append (default [] (Dict.get k b)) sample
                | Raise _ => default [] (Dict.get k b)
                end)
        else Dict.get k b
    | None => Dict.get k b
    end.
Proof.
  unfold next_buffer. destruct (data_sample msg) as [[node_mac r]|]; [|done].
  destruct r as [sample|e].
  - rewrite get_alter, getitem_default_get.
    case_decide; [|by destruct (Dict.get k b)].
    by destruct (Dict.get k b).
  - rewrite getitem_default_get.
    case_decide; by destruct (Dict.get k b).
Qed.

Lemma next_buffer_keys msg b :
  Dict.keys (next_buffer msg b) =
    match data_sample msg with
    | Some (node_mac, _) =>
        if decide (node_mac ∈ Dict.keys b) then Dict.keys b
        else Dict.keys b ++ [node_mac]
    | None => Dict.keys b
    end.
Proof.
  unfold next_buffer. destruct (data_sample msg) as [[node_mac r]|]; [|done].
  destruct r; rewrite ?keys_alter; apply getitem_default_keys.
Qed.

Lemma next_buffer_NoDup msg b :
  NoDup (Dict.keys b) → NoDup (Dict.keys (next_buffer msg b)).
Proof.
  intros Hnd. unfold next_buffer.
  destruct (data_sample msg) as [[node_mac r]|]; [|done].
  destruct r; rewrite ?keys_alter; by apply getitem_default_NoDup.
Qed.

Lemma buffers_NoDup msgs b :
  NoDup (Dict.keys b) →
  NoDup (Dict.keys (fold_left (λ b msg, next_buffer msg b) msgs b)).
Proof.
  revert b. induction msgs as [|msg msgs IH]; intros b Hnd; [done|].
  simpl. by apply IH, next_buffer_NoDup.
Qed.

(** The buffer of a node after a run of messages: its samples appended, one
    by one, to what it held. *)
Lemma buffers_get node_mac msgs b :
  default [] (Dict.get node_mac (fold_left (λ b msg, next_buffer msg b) msgs b)) =
    fold_left deque_append (samples_for node_mac msgs)
      (default [] (Dict.get node_mac b)).
Proof.
  revert b. induction msgs as [|msg msgs IH]; intros b; [done|].
  simpl. rewrite IH, next_buffer_get. unfold samples_for. simpl.
  destruct (data_sample msg) as [[k [sample|e]]|]; simpl; try done.
  - by case_decide.
  - by case_decide.
Qed.

End Buffers.

(** ** Qualifying nodes *)
Section Qualifying.
Context (positions : gmap string (list float)).
Implicit Types (b : list (string * list measurement)).

Lemma filter_alter_qualifies (f : list measurement → list measurement) k b :
  (∀ d, 0 < length (f d)) →
  length (List.filter (qualifies positions) b) ≤
    length (List.filter (qualifies positions) (Dict.alter f k b)).
Proof.
  intros Hf. induction b as [|[k' d] b IH]; simpl; [done|].
  destruct (decide (k' = k)) as [->|Hne]; simpl.
  - assert (∀ d', qualifies positions (k, d') =
      bool_decide (is_Some (positions !! k)) && (0 <? length d')) as Hq by done.
    rewrite !Hq.
    destruct (bool_decide _); simpl; [|lia].
    specialize (Hf d). apply Nat.ltb_lt in Hf. rewrite Hf.
    destruct (0 <? length d); simpl; lia.
  - destruct (qualifies positions (k', d)); simpl; lia.
Qed.

Lemma filter_getitem_default_qualifies k b :
  List.filter (qualifies positions) (Dict.getitem_default [] k b).2 =
    List.filter (qualifies positions) b.
Proof.
  unfold Dict.getitem_default. destruct (Dict.get k b); simpl; [done|].
  rewrite List.filter_app. simpl. unfold qualifies at 2. simpl.
  rewrite andb_false_r. by rewrite app_nil_r.
Qed.

(** A message never lowers the number of qualifying nodes. *)
Lemma next_buffer_qualifying msg b :
  length (List.filter (qualifies positions) b) ≤
    length (List.filter (qualifies positions) (next_buffer msg b)).
Proof.
  unfold next_buffer. destruct (data_sample msg) as [[node_mac r]|]; [|done].
  destruct r as [sample|e].
  - rewrite <- (filter_getitem_default_qualifies node_mac b) at 1.
    apply filter_alter_qualifies. intros d. apply deque_append_nonempty.
  - by rewrite filter_getitem_default_qualifies.
Qed.

Lemma buffers_qualifying msgs b :
  length (List.filter (qualifies positions) b) ≤
    length (List.filter (qualifies positions)
              (fold_left (λ b msg, next_buffer msg b) msgs b)).
Proof.
  revert b. induction msgs as [|msg msgs IH]; intros b; [done|].
  simpl. etrans; [apply (next_buffer_qualifying msg)|apply IH].
Qed.
End Qualifying.

(** ** The distance estimates of a cycle *)
Section Distances.
Context `{Numerics}.
Context (positions : gmap string (list float)).
Implicit Types (items : list (string * list measurement))
    (distances : list (string * float)).

Lemma estimate_distances_length items acc distances :
  estimate_distances positions items acc = Ok distances →
  length distances ≤
    length acc + length (List.filter (qualifies positions) items).
Proof.
  revert acc. induction items as [|[k buffer] items IH]; intros acc; simpl.
  - intros [= <-]. lia.
  - destruct (qualifies positions (k, buffer)); simpl; [|by apply IH].
    destruct (estimate_distance buffer) as [distance|e]; simpl; [|done].
    intros Hd. apply IH in Hd. pose proof (length_set k distance acc). lia.
Qed.

(** With distinct keys the loop appends one estimate per qualifying node,
    in the order of the buffers. *)
Lemma estimate_distances_exact items acc distances :
  NoDup (Dict.keys acc ++ Dict.keys items) →
  estimate_distances positions items acc = Ok distances →
  ∃ new, distances = acc ++ new ∧
    Forall2 (λ item e, e.1 = item.1 ∧ estimate_distance item.2 = Ok e.2)
      (List.filter (qualifies positions) items) new.
Proof.
  revert acc. induction items as [|[k buffer] items IH]; intros acc Hnd; simpl.
  - intros [= <-]. exists []. by rewrite app_nil_r.
  - simpl in Hnd. apply NoDup_app in Hnd as (Hacc & Hdisj & Hitems).
    apply NoDup_cons in Hitems as [Hk Hitems].
    destruct (qualifies positions (k, buffer)); simpl.
    + destruct (estimate_distance buffer) as [distance|e] eqn:He; simpl; [|done].
      rewrite set_fresh by (intros Hin; apply (Hdisj k Hin); by left).
      intros Hd. apply IH in Hd as (new & -> & Hnew).
      * exists ((k, distance) :: new). split; [by rewrite <- (assoc_L (++))|].
        by constructor.
      * unfold Dict.keys. rewrite fmap_app. simpl.
        rewrite <- (assoc_L (++)). simpl.
        apply NoDup_app. split_and!; [done| |by apply NoDup_cons].
        intros x Hx Hx'. apply (Hdisj x Hx Hx').
    + intros Hd. apply IH in Hd; [done|].
      apply NoDup_app. split_and!; [done| |done].
      intros x Hx Hx'. apply (Hdisj x Hx). by right.
Qed.

(** The loop raises only when an estimate does. *)
Lemma estimate_distances_ok items acc :
  Forall (λ item, ∃ distance, estimate_distance item.2 = Ok distance)
    (List.filter (qualifies positions) items) →
  ∃ distances, estimate_distances positions items acc = Ok distances.
Proof.
  revert acc. induction items as [|[k buffer] items IH]; intros acc; simpl.
  - by exists acc.
  - destruct (qualifies positions (k, buffer)); simpl; [|by apply IH].
    intros Hall. apply Forall_cons in Hall as [[distance Hd] Hall].
    simpl in Hd. rewrite Hd. simpl. by apply IH.
Qed.

Lemma cycle_position_quorum b position :
  cycle_position positions b = Some position →
  3 ≤ length (List.filter (qualifies positions) b).
Proof.
  unfold cycle_position.
  destruct (estimate_distances positions b []) as [distances|e] eqn:Hd; [|done].
  apply estimate_distances_length in Hd. simpl in Hd.
  destruct (Nat.leb_spec 3 (length distances)); [|done]. intros _. lia.
Qed.

Lemma published_on_quorum msg now b :
  published_on positions msg now b ≠ [] →
  3 ≤ length (List.filter (qualifies positions) (next_buffer msg b)).
Proof.
  unfold published_on, cycle_publications.
  destruct (data_sample msg) as [[node_mac [sample|e]]|]; try done.
  destruct (3 <=? _); [|done].
  destruct (cycle_position positions (next_buffer msg b)) eqn:Hc; [|done].
  intros _. by eapply cycle_position_quorum.
Qed.
End Distances.

(** ** Reachable states *)
Section Reachable.
Context `{Numerics}.

Lemma loop_qualifying_mono events s :
  length (qualifying s) ≤ length (qualifying (loop events s).2).
Proof.
  unfold qualifying. rewrite loop_positions, loop_csi_buffer.
  apply buffers_qualifying.
Qed.

Lemma loop_mqtt_client events s :
  mqtt_client (loop events s).2 =
    mqtt_client s ++ published_along (node_positions s) events (csi_buffer s).
Proof.
  revert s. induction events as [|[msg now] events IH]; intros s.
  - simpl. by rewrite app_nil_r.
  - rewrite loop_cons, IH. simpl.
    rewrite on_message_mqtt_client, on_message_positions, on_message_csi_buffer.
    by rewrite (assoc_L (++)).
Qed.

(** The handler's body, by the node and the kind the topic addresses. *)
Lemma on_message_try_addressed msg now :
  on_message_try msg now =
    match addressed (topic msg) with
    | None => ret ()
    | Some (node_mac, data_type) =>
        (let* data := lift (from_option Ok (Raise JSONDecodeError) (payload msg)) in
         if decide (data_type = "data") then process_csi_data node_mac data now
         else if decide (data_type = "stats")
              then update_node_stats node_mac data now
              else ret ())%py
    end.
Proof.
  unfold on_message_try, addressed.
  destruct (Nat.leb_spec 4 (length (split_on "/" (topic msg)))) as [Hle|Hlt]; [|done].
  destruct (lookup_lt_is_Some_2 (split_on "/" (topic msg)) 2) as [node_mac Hn]; [lia|].
  destruct (lookup_lt_is_Some_2 (split_on "/" (topic msg)) 3) as [data_type Ht]; [lia|].
  unfold index. by rewrite Hn, Ht.
Qed.

Lemma on_message_stats msg now s node_mac :
  addressed (topic msg) = Some (node_mac, "stats") →
  on_message msg now s =
    (Ok (),
     match payload msg with
     | Some (JDict d) =>
         set_nodes (insert node_mac
           (NodeStats (default (JInt 0) (Dict.get "packets" d))
                      (default (JBool false) (Dict.get "enabled" d))
                      (default (JInt 0) (Dict.get "uptime" d)) now)) s
     | Some _ => log_emit (LogError "Error processing message" AttributeError) s
     | None => log_emit (LogError "Error processing message" JSONDecodeError) s
     end).
Proof.
  intros Haddr. unfold on_message. rewrite on_message_try_addressed, Haddr.
  run. destruct (payload msg) as [data|]; simpl; [|done].
  pose proof (update_node_stats_run node_mac data now s) as Hrun.
  destruct data; by rewrite Hrun.
Qed.

Lemma loop_NoDup registry events :
  NoDup (Dict.keys (csi_buffer (loop events (init registry)).2)).
Proof. rewrite loop_csi_buffer. apply buffers_NoDup. simpl. apply NoDup_nil_2. Qed.

Lemma filter_keys_NoDup positions (b : list (string * list measurement)) :
  NoDup (Dict.keys b) → NoDup (Dict.keys (List.filter (qualifies positions) b)).
Proof.
  induction b as [|[k d] b IH]; simpl; [done|].
  intros Hnd. apply NoDup_cons in Hnd as [Hk Hnd].
  destruct (qualifies positions (k, d)); simpl; [|by apply IH].
  apply NoDup_cons. split; [|by apply IH].
  intros Hin. apply Hk. apply list_elem_of_fmap in Hin as ([k' d'] & -> & Hin).
  apply list_elem_of_In, List.filter_In in Hin as [Hin _].
  apply list_elem_of_In in Hin. by apply (list_elem_of_fmap_2 fst) in Hin.
Qed.

Lemma estimates_keys (items : list (string * list measurement))
    (new : list (string * float)) :
  Forall2 (λ item e, e.1 = item.1 ∧ estimate_distance item.2 = Ok e.2) items new →
  Dict.keys new = Dict.keys items.
Proof.
  induction 1 as [|[k d] [k' v] items new [Hk _] _ IH]; simpl; [done|].
  simpl in Hk. by rewrite Hk, IH.
Qed.

Lemma estimates_elem (items : list (string * list measurement))
    (new : list (string * float)) k d :
  Forall2 (λ item e, e.1 = item.1 ∧ estimate_distance item.2 = Ok e.2) items new →
  (k, d) ∈ items →
  ∃ distance, (k, distance) ∈ new ∧ estimate_distance d = Ok distance.
Proof.
  induction 1 as [|[k0 d0] [k' v] items new [Hk He] _ IH]; simpl in *.
  - intros Hin. by apply elem_of_nil in Hin.
  - intros Hin. apply elem_of_cons in Hin as [[= -> ->]|Hin].
    + exists v. subst k'. split; [apply elem_of_cons; by left|done].
    + destruct (IH Hin) as (distance & Hd & Hest).
      exists distance. split; [apply elem_of_cons; by right|done].
Qed.
End Reachable.

(** ** Malformed messages *)

Lemma lacks_field_raises data :
  lacks_field data → ∃ e, sample_of data = Raise e.
Proof.
  unfold lacks_field, required_fields, sample_of. intros Hlacks.
  destruct data as [| | | | | |d];
    try (eexists; reflexivity).
  repeat match goal with
  | Hx : Exists _ (_ :: _) |- _ => apply Exists_cons in Hx as [[e Hx]|Hx]
  | Hx : Exists _ [] |- _ => by apply Exists_nil in Hx
  end; simpl in *;
  repeat match goal with
  | |- context [Dict.get ?f d] => destruct (Dict.get f d); simpl; try done;
                                  try (eexists; reflexivity)
  end.
Qed.

Section Malformed.
Context `{Numerics}.

(** A data message whose payload raises: the buffer of the node is looked up
    (and created) and the exception is logged. *)
Lemma on_message_data_raises msg now s node_mac data e :
  addressed (topic msg) = Some (node_mac, "data") →
  payload msg = Some data →
  sample_of data = Raise e →
  on_message msg now s =
    (Ok (), log_emit (LogError "Error processing message" e)
              (set_csi_buffer (Dict.getitem_default [] node_mac (csi_buffer s)).2 s)).
Proof.
  intros Haddr Hpay Hraise. unfold on_message.
  rewrite on_message_try_addressed, Haddr, Hpay. run.
  pose proof (process_csi_data_run node_mac data now s) as Hrun.
  rewrite Hraise in Hrun. simpl in Hrun. by rewrite Hrun.
Qed.

Lemma on_message_undecodable msg now s :
  payload msg = None →
  on_message msg now s =
    (Ok (), match addressed (topic msg) with
            | Some _ =>
                log_emit (LogError "Error processing message" JSONDecodeError) s
            | None => s
            end).
Proof.
  intros Hpay. unfold on_message. rewrite on_message_try_addressed, Hpay.
  by destruct (addressed (topic msg)) as [[node_mac data_type]|].
Qed.

Lemma on_message_unexpected_topic msg now s :
  (∀ node_mac, addressed (topic msg) ≠ Some (node_mac, "data")
               ∧ addressed (topic msg) ≠ Some (node_mac, "stats")) →
  on_message msg now s =
    (Ok (), match addressed (topic msg), payload msg with
            | Some _, None =>
                log_emit (LogError "Error processing message" JSONDecodeError) s
            | _, _ => s
            end).
Proof.
  intros Hkind. unfold on_message. rewrite on_message_try_addressed.
  destruct (addressed (topic msg)) as [[node_mac data_type]|] eqn:Haddr; [|done].
  destruct (Hkind node_mac) as [Hd Hs].
  run. destruct (payload msg) as [data|]; simpl; [|done].
  rewrite decide_False by congruence. by rewrite decide_False by congruence.
Qed.
End Malformed.

(** ** The solve *)

(** With three registered anchors of two coordinates the solve returns the
    pair Cramer's rule computes, whatever the geometry: a zero denominator
    gives an infinity or a NaN, not an exception. *)
Lemma trilaterate_try_planar positions distances n1 n2 n3 rest p1 p2 p3 r1 r2 r3 :
  Dict.keys distances = n1 :: n2 :: n3 :: rest →
  positions !! n1 = Some [p1.1; p1.2] →
  positions !! n2 = Some [p2.1; p2.2] →
  positions !! n3 = Some [p3.1; p3.2] →
  Dict.get n1 distances = Some r1 →
  Dict.get n2 distances = Some r2 →
  Dict.get n3 distances = Some r3 →
  trilaterate_try positions distances = Ok (cramer p1 p2 p3 r1 r2 r3).
Proof.
  intros Hkeys H1 H2 H3 Hr1 Hr2 Hr3. unfold trilaterate_try, position_of, Dict.getitem.
  rewrite Hkeys. simpl. rewrite H1. simpl. rewrite H2. simpl. rewrite H3. simpl.
  rewrite Hr1, Hr2, Hr3. simpl.
  by destruct p1, p2, p3.
Qed.

Lemma trilaterate_try_take positions distances :
  trilaterate_try positions (take 3 distances) = trilaterate_try positions distances.
Proof.
  destruct distances as [|[k1 v1] [|[k2 v2] [|[k3 v3] rest]]]; try done.
  unfold trilaterate_try, Dict.getitem. simpl.
  destruct (position_of positions k1); simpl; [|done].
  destruct (position_of positions k2); simpl; [|done].
  destruct (position_of positions k3); simpl; [|done].
  rewrite !decide_True by done.
  by repeat case_decide.
Qed.

(** * The claims *)

(** C1 (the code departs from the claim).  With the three anchors (0,0),
    (5,0), (10,0) of the registry on one line, the solve returns a pair for
    any three distances, and the cycle publishes it; for three equal
    distances the pair is (NaN, -infinity). *)
Theorem collinear_anchors_yield_a_position `{Numerics}
    (r1 r2 r3 : float) (now : string) :
  trilaterate [("n1", r1); ("n2", r2); ("n3", r3)] (init Scenario.collinear)
  = (Ok (Some (cramer (0, 0)%float (5, 0)%float (10, 0)%float r1 r2 r3)),
     init Scenario.collinear)
  ∧ mqtt_client (solve_and_publish [("n1", r1); ("n2", r2); ("n3", r3)] now
                   (init Scenario.collinear)).2
    = publications (cramer (0, 0)%float (5, 0)%float (10, 0)%float r1 r2 r3) now
  ∧ cramer (0, 0)%float (5, 0)%float (10, 0)%float 2 2 2 = (nan, neg_infinity).
Proof.
  assert (trilaterate_try Scenario.collinear [("n1", r1); ("n2", r2); ("n3", r3)]
          = Ok (cramer (0, 0)%float (5, 0)%float (10, 0)%float r1 r2 r3)) as Htry.
  { by rewrite (trilaterate_try_planar _ _ "n1" "n2" "n3" []
                  (0, 0)%float (5, 0)%float (10, 0)%float r1 r2 r3). }
  split_and!.
  - rewrite trilaterate_run. simpl. by rewrite Htry.
  - unfold solve_and_publish. simpl. unfold bind.
    rewrite trilaterate_run. simpl. rewrite Htry.
    by rewrite publish_position_run.
  - reflexivity.
Qed.

Section Concrete.
Import Reference.

(** The same defect from the transport: three nodes on a line report -36 dB
    each, and the third report publishes a position of NaN and -infinity. *)
Example collinear_round_publishes :
  mqtt_client (loop Scenario.one_round (init Scenario.collinear)).2
  = [ ("homeassistant/sensor/whofi_position/state",
       JDict [("x", JFloat nan); ("y", JFloat neg_infinity);
              ("timestamp", JStr "2024-05-01T12:00:00");
              ("confidence", JFloat 0.8);
              ("source", JStr "csi_trilateration")]);
      ("homeassistant/device_tracker/whofi_tracker/attributes",
       JDict [("latitude", JFloat neg_infinity); ("longitude", JFloat nan);
              ("gps_accuracy", JFloat 2); ("source_type", JStr "router")]) ].
Proof. vm_compute. reflexivity. Qed.
End Concrete.

(** C2 (as amended).  Every message published, in any run, is a position
    record with exactly the fields x, y, timestamp, confidence and source, or
    the tracker record with latitude, longitude, gps_accuracy and source_type
    that follows it; neither has a field contributing_node_ids. *)
Theorem published_records_have_fixed_fields `{Numerics}
    (registry : gmap string (list float)) (events : list (message * string)) :
  Forall (λ m, publication_shape m
               ∧ json_getitem m.2 "contributing_node_ids"
                 = Raise (KeyError "contributing_node_ids"))
    (mqtt_client (loop events (init registry)).2).
Proof.
  rewrite loop_mqtt_client. simpl.
  generalize (@nil (string * list measurement)).
  induction events as [|[msg now] events IH]; intros b; simpl; [constructor|].
  apply Forall_app. split; [|apply IH].
  unfold published_on, cycle_publications.
  destruct (data_sample msg) as [[node_mac [sample|e]]|]; try constructor.
  destruct (3 <=? _); [|constructor].
  destruct (cycle_position registry (next_buffer msg b)) as [position|];
    [|constructor].
  unfold publications, publication_shape.
  apply Forall_cons. split; [split; [by left|done]|].
  apply Forall_cons. split; [split; [by right|done]|constructor].
Qed.

Section Concrete.
Import Reference.

(** C2, as stated, fails: the two records published in the end-to-end
    scenario have no field contributing_node_ids. *)
Lemma published_result_names_no_nodes :
  (payload_keys ∘ snd) <$> mqtt_client (loop Scenario.one_round (init Scenario.triangle)).2
  = [result_fields; tracker_fields]
  ∧ (λ m, json_getitem m.2 "contributing_node_ids")
      <$> mqtt_client (loop Scenario.one_round (init Scenario.triangle)).2
    = [Raise (KeyError "contributing_node_ids");
       Raise (KeyError "contributing_node_ids")].
Proof. split; vm_compute; reflexivity. Qed.

(** The end-to-end scenario: three nodes on a triangle of side 10 report
    -36 dB each; the position published is (5, 2.89), near the centroid. *)
Example triangle_round_publishes :
  mqtt_client (loop Scenario.one_round (init Scenario.triangle)).2
  = [ ("homeassistant/sensor/whofi_position/state",
       JDict [("x", JFloat 5); ("y", JFloat 2.89);
              ("timestamp", JStr "2024-05-01T12:00:00");
              ("confidence", JFloat 0.8);
              ("source", JStr "csi_trilateration")]);
      ("homeassistant/device_tracker/whofi_tracker/attributes",
       tracker_payload (5, 2.8865819861431872)%float) ].
Proof. vm_compute. reflexivity. Qed.
End Concrete.

(** C3.  After any sequence of ingested messages that leaves fewer than
    three nodes both in the registry and with a buffered sample, nothing has
    been published.  (The buffers hold one entry per node, [loop_NoDup], so
    the length of [qualifying] counts distinct nodes.) *)
Theorem no_publication_below_quorum `{Numerics}
    (registry : gmap string (list float)) (events : list (message * string)) :
  length (qualifying (loop events (init registry)).2) < 3 →
  mqtt_client (loop events (init registry)).2 = [].
Proof.
  enough (∀ s, length (qualifying (loop events s).2) < 3 →
               mqtt_client (loop events s).2 = mqtt_client s) as Hgen.
  { intros Hlt. by rewrite Hgen. }
  induction events as [|[msg now] events IH]; intros s; [done|].
  rewrite loop_cons. intros Hlt. rewrite IH by done.
  rewrite on_message_mqtt_client.
  destruct (published_on _ msg now _) eqn:Hpub; [by rewrite app_nil_r|].
  exfalso.
  pose proof (loop_qualifying_mono events (on_message msg now s).2) as Hmono.
  assert (3 ≤ length (qualifying (on_message msg now s).2)); [|lia].
  unfold qualifying. rewrite on_message_positions, on_message_csi_buffer.
  apply (published_on_quorum _ msg now). by rewrite Hpub.
Qed.

Section Concrete.
Import Reference.

Lemma no_publication_below_quorum_witness :
  length (qualifying (loop Scenario.with_stranger (init Scenario.triangle)).2) < 3
  ∧ mqtt_client (loop Scenario.with_stranger (init Scenario.triangle)).2 = [].
Proof.
  assert (length (qualifying
            (loop Scenario.with_stranger (init Scenario.triangle)).2) < 3) as Hlt.
  { vm_compute. lia. }
  split; [exact Hlt|].
  exact (no_publication_below_quorum Scenario.triangle Scenario.with_stranger Hlt).
Defined.
End Concrete.

(** C4.  Whatever the run of messages, once more than 100 samples have been
    appended to the buffer of a node, that buffer holds exactly the last 100
    of them, in arrival order.  At no point of the run does the buffer hold
    more than 100 samples; an append always stores its sample, and on a full
    buffer it drops the oldest one. *)
Theorem buffer_keeps_last_100 `{Numerics}
    (registry : gmap string (list float)) (events : list (message * string))
    (node_mac : string) :
  100 < length (samples_for node_mac events.*1) →
  (∃ buffer,
     Dict.get node_mac (csi_buffer (loop events (init registry)).2) = Some buffer
     ∧ buffer = last_n 100 (samples_for node_mac events.*1)
     ∧ length buffer = 100)
  ∧ (∀ earlier d, earlier `prefix_of` events →
       Dict.get node_mac (csi_buffer (loop earlier (init registry)).2) = Some d →
       length d ≤ 100)
  ∧ (∀ (d : list measurement) sample, last (deque_append d sample) = Some sample)
  ∧ (∀ (d : list measurement) sample,
       length d = 100 → deque_append d sample = tail d ++ [sample]).
Proof.
  assert (∀ evs,
    default [] (Dict.get node_mac (csi_buffer (loop evs (init registry)).2))
    = last_n 100 (samples_for node_mac evs.*1)) as Hbuffer.
  { intros evs. rewrite loop_csi_buffer. simpl.
    rewrite (buffers_get node_mac evs.*1 []). simpl.
    by rewrite deque_appends by (simpl; lia). }
  intros Hmany. split_and!.
  - specialize (Hbuffer events).
    assert (length (last_n 100 (samples_for node_mac events.*1)) = 100) as Hlen
      by (rewrite last_n_length; lia).
    destruct (Dict.get node_mac (csi_buffer (loop events (init registry)).2))
      as [buffer|]; simpl in Hbuffer.
    + exists buffer. by rewrite Hbuffer.
    + by rewrite <- Hbuffer in Hlen.
  - intros earlier d _ Hd. specialize (Hbuffer earlier). rewrite Hd in Hbuffer.
    simpl in Hbuffer. rewrite Hbuffer, last_n_length. lia.
  - intros d sample. apply deque_append_last.
  - intros d sample Hfull. unfold deque_append. rewrite length_app, Hfull. simpl.
    by destruct d.
Qed.

Section Concrete.
Import Reference.

Lemma buffer_keeps_last_100_witness :
  100 < length (samples_for "n1" Scenario.burst.*1)
  ∧ Dict.get "n1" (csi_buffer (loop Scenario.burst (init Scenario.triangle)).2)
    = Some Scenario.burst_buffer.
Proof.
  assert (100 < length (samples_for "n1" Scenario.burst.*1)) as Hmany
    by (vm_compute; lia).
  split; [exact Hmany|].
  destruct (buffer_keeps_last_100 Scenario.triangle Scenario.burst "n1" Hmany)
    as ((buffer & -> & -> & _) & _).
  vm_compute. reflexivity.
Defined.
End Concrete.

(** C5.  When numpy can average the recent signal strengths of every
    qualifying node, the loop of a cycle produces the estimates; for a node in
    the registry with a non-empty buffer the estimate is
    [10 ** ((-30 - m) / 20)], [m] being the mean of the signal strengths of
    the most recent [min 10 (length buffer)] samples, and a node whose buffer
    is empty gets no estimate. *)
Theorem distance_estimates `{Numerics}
    (registry : gmap string (list float)) (events : list (message * string)) :
  Forall (λ item, is_Some (np_mean (rssi <$> last_n 10 item.2)))
    (qualifying (loop events (init registry)).2) →
  ∃ distances,
    estimate_distances registry (csi_buffer (loop events (init registry)).2) []
    = Ok distances
    ∧ ∀ node_mac buffer,
        (node_mac, buffer) ∈ csi_buffer (loop events (init registry)).2 →
        (is_Some (registry !! node_mac) → buffer ≠ [] →
         ∃ recent m,
           recent `suffix_of` buffer
           ∧ length recent = 10 `min` length buffer
           ∧ np_mean (rssi <$> recent) = Some m
           ∧ Dict.get node_mac distances
             = Some (float_pow 10 ((-30 - m) / 20))%float)
        ∧ (buffer = [] → Dict.get node_mac distances = None).
Proof.
  set (s := (loop events (init registry)).2).
  assert (node_positions s = registry) as Hpos by apply loop_positions.
  pose proof (loop_NoDup registry events) as Hnd. fold s in Hnd.
  unfold qualifying. rewrite Hpos. intros Hmeans.
  destruct (estimate_distances_ok registry (csi_buffer s) []) as [distances Hd].
  { eapply Forall_impl; [exact Hmeans|]. intros [k d] [m Hm]. simpl in *.
    unfold estimate_distance. rewrite Hm. by eexists. }
  exists distances. split; [done|].
  destruct (estimate_distances_exact registry (csi_buffer s) [] distances)
    as (new & -> & Hnew); [done|done|]. change ([] ++ new) with new in *.
  pose proof (estimates_keys _ _ Hnew) as Hkeys.
  pose proof (filter_keys_NoDup registry _ Hnd) as Hndq.
  intros node_mac buffer Hin. split.
  - intros Hreg Hne.
    assert ((node_mac, buffer) ∈ List.filter (qualifies registry) (csi_buffer s))
      as Hq.
    { apply list_elem_of_In, List.filter_In. split; [by apply list_elem_of_In|].
      unfold qualifies. simpl. rewrite bool_decide_eq_true_2 by done. simpl.
      apply Nat.ltb_lt. destruct buffer; [done|simpl; lia]. }
    destruct (estimates_elem _ _ _ _ Hnew Hq) as (distance & Hdist & Hest).
    unfold estimate_distance in Hest.
    destruct (np_mean (rssi <$> last_n 10 buffer)) as [m|] eqn:Hm; [|done].
    exists (last_n 10 buffer), m. split_and!.
    + apply last_n_suffix.
    + apply last_n_length.
    + done.
    + assert (distance = float_pow 10 ((-30 - m) / 20)%float) as ->
        by (injection Hest as <-; reflexivity).
      apply elem_get; [by rewrite Hkeys|done].
  - intros ->. apply get_None. rewrite Hkeys. intros Hk.
    apply list_elem_of_fmap in Hk as ([k' d'] & Heq & Hk). simpl in Heq. subst k'.
    apply list_elem_of_In, List.filter_In in Hk as [Hk Hq].
    apply list_elem_of_In in Hk.
    assert (d' = []) as ->.
    { apply (elem_get _ _ _ Hnd) in Hk. apply (elem_get _ _ _ Hnd) in Hin.
      congruence. }
    unfold qualifies in Hq. simpl in Hq. by rewrite andb_false_r in Hq.
Qed.

Section Concrete.
Import Reference.

Lemma distance_estimates_witness :
  Forall (λ item, is_Some (np_mean (rssi <$> last_n 10 item.2)))
    (qualifying (loop Scenario.round_and_empty (init Scenario.four_nodes)).2)
  ∧ ∃ distances,
      estimate_distances Scenario.four_nodes
        (csi_buffer (loop Scenario.round_and_empty (init Scenario.four_nodes)).2) []
      = Ok distances
      ∧ Dict.get "n4" distances = None
      ∧ Dict.get "n1" distances = Some (float_pow 10 ((-30 - (-36)) / 20))%float.
Proof.
  assert (Forall (λ item, is_Some (np_mean (rssi <$> last_n 10 item.2)))
    (qualifying (loop Scenario.round_and_empty (init Scenario.four_nodes)).2))
    as Hmeans.
  { assert (qualifying (loop Scenario.round_and_empty (init Scenario.four_nodes)).2
            = [("n1", [Scenario.sample 1 (-36)]); ("n2", [Scenario.sample 2 (-36)]);
               ("n3", [Scenario.sample 3 (-36)])]) as -> by (vm_compute; reflexivity).
    repeat (apply Forall_cons; split; [by eexists|]). constructor. }
  split; [exact Hmeans|].
  destruct (distance_estimates Scenario.four_nodes Scenario.round_and_empty Hmeans)
    as (distances & Hd & Hall).
  exists distances. split; [exact Hd|].
  assert (csi_buffer (loop Scenario.round_and_empty (init Scenario.four_nodes)).2
          = [("n1", [Scenario.sample 1 (-36)]); ("n2", [Scenario.sample 2 (-36)]);
             ("n3", [Scenario.sample 3 (-36)]); ("n4", [])]) as Hb
    by (vm_compute; reflexivity).
  rewrite Hb in Hall. split.
  - apply (Hall "n4" []); [|done]. do 3 (apply elem_of_cons; right).
    apply elem_of_cons; by left.
  - destruct (proj1 (Hall "n1" [Scenario.sample 1 (-36)]
                       ltac:(apply elem_of_cons; by left)))
      as (recent & m & Hsuf & Hlen & Hm & Hget); [by eexists|done|].
    rewrite Hget. do 3 f_equal.
    assert (recent = [Scenario.sample 1 (-36)]) as ->.
    { destruct Hsuf as [pre Hpre]. destruct recent as [|x [|y recent]]; [done| |].
      - destruct pre as [|? [|]]; simplify_eq/=. done.
      - simpl in Hlen. lia. }
    vm_compute in Hm. injection Hm as <-. reflexivity.
Defined.
End Concrete.

(** C6 (as amended).  With the anchors (0,0), (10,0), (5,10) and three
    distances of 7.07 the solve returns the point (5, 3.75), the point at
    equal distance from the three anchors. *)
Theorem symmetric_case_solution :
  trilaterate [("n1", 7.07); ("n2", 7.07); ("n3", 7.07)]%float
    (init Scenario.isosceles)
  = (Ok (Some (5, 3.75)%float), init Scenario.isosceles).
Proof.
  rewrite trilaterate_run. simpl.
  by rewrite (trilaterate_try_planar _ _ "n1" "n2" "n3" []
                (0, 0)%float (10, 0)%float (5, 10)%float 7.07 7.07 7.07).
Qed.

(** C6, as stated, fails: the point returned is (5, 3.75), and its second
    coordinate is more than 0.2 away from 3.54. *)
Lemma symmetric_case_is_not_near_3_54 :
  trilaterate_try Scenario.isosceles [("n1", 7.07); ("n2", 7.07); ("n3", 7.07)]%float
  = Ok (5, 3.75)%float
  ∧ within 0.2 (5, 3.75)%float (5, 3.54)%float = false
  ∧ within 0.2 (5, 3.75)%float (5, 3.75)%float = true.
Proof.
  split_and!; [|reflexivity|reflexivity].
  by rewrite (trilaterate_try_planar _ _ "n1" "n2" "n3" []
                (0, 0)%float (10, 0)%float (5, 10)%float 7.07 7.07 7.07).
Qed.


Section Concrete.
Import Reference.

End Concrete.

(** C8.  A stats message changes no buffer and publishes nothing: at most the
    statistics record of its node changes.  The buffers and the publications
    of any later run are the same as if the message had not arrived. *)
Theorem stats_message_leaves_buffers `{Numerics}
    (msg : message) (now : string) (s : processor) (node_mac : string) :
  addressed (topic msg) = Some (node_mac, "stats") →
  (on_message msg now s).1 = Ok ()
  ∧ csi_buffer (on_message msg now s).2 = csi_buffer s
  ∧ mqtt_client (on_message msg now s).2 = mqtt_client s
  ∧ node_positions (on_message msg now s).2 = node_positions s
  ∧ (∀ k, k ≠ node_mac → nodes (on_message msg now s).2 !! k = nodes s !! k)
  ∧ (∀ later,
       csi_buffer (loop later (on_message msg now s).2).2 = csi_buffer (loop later s).2
       ∧ mqtt_client (loop later (on_message msg now s).2).2
         = mqtt_client (loop later s).2).
Proof.
  intros Haddr. rewrite (on_message_stats _ _ _ _ Haddr). simpl.
  assert (∀ s', csi_buffer s' = csi_buffer s → mqtt_client s' = mqtt_client s →
            node_positions s' = node_positions s →
            ∀ later, csi_buffer (loop later s').2 = csi_buffer (loop later s).2
                     ∧ mqtt_client (loop later s').2 = mqtt_client (loop later s).2)
    as Hlater.
  { intros s' Hb Hm Hp later.
    by rewrite !loop_csi_buffer, !loop_mqtt_client, Hb, Hm, Hp. }
  destruct (payload msg) as [[]|]; simpl; split_and!; try done;
    try (by apply Hlater).
  intros k Hk. by rewrite lookup_insert_ne.
Qed.

Section Concrete.
Import Reference.

Lemma stats_message_leaves_buffers_witness :
  addressed (topic Scenario.stats_event.1) = Some ("n1", "stats")
  ∧ csi_buffer (on_message Scenario.stats_event.1 Scenario.stats_event.2
                  (loop Scenario.one_round (init Scenario.triangle)).2).2
    = csi_buffer (loop Scenario.one_round (init Scenario.triangle)).2.
Proof.
  assert (addressed (topic Scenario.stats_event.1) = Some ("n1", "stats")) as Haddr
    by (vm_compute; reflexivity).
  split; [exact Haddr|].
  exact (proj1 (proj2 (stats_message_leaves_buffers Scenario.stats_event.1
    Scenario.stats_event.2 (loop Scenario.one_round (init Scenario.triangle)).2
    "n1" Haddr))).
Defined.
End Concrete.

(** C9 (as amended).  For a malformed message (a payload that does not
    decode, a data payload that lacks a required field, or a topic that
    addresses neither channel) the handler returns normally and the loop goes
    on with the next message; nothing is published, no statistics record and
    no stored sample changes.  The error is logged when the topic has its four
    levels and the payload does not decode or lacks a field; a message whose
    topic has fewer than four levels is ignored without a log record (its
    payload is not even decoded). *)
Theorem malformed_message_is_contained `{Numerics}
    (msg : message) (now : string) (s : processor) :
  malformed msg →
  ∃ s',
    on_message msg now s = (Ok (), s')
    ∧ (∀ later, loop ((msg, now) :: later) s = loop later s')
    ∧ node_positions s' = node_positions s
    ∧ nodes s' = nodes s
    ∧ mqtt_client s' = mqtt_client s
    ∧ (csi_buffer s' = csi_buffer s
       ∨ ∃ node_mac, csi_buffer s' = csi_buffer s ++ [(node_mac, [])])
    ∧ (is_Some (addressed (topic msg)) →
       payload msg = None ∨ (∃ data, payload msg = Some data ∧ lacks_field data
                                     ∧ ∃ node_mac, addressed (topic msg)
                                                   = Some (node_mac, "data")) →
       ∃ e, logger s' = logger s ++ [LogError "Error processing message" e])
    ∧ (addressed (topic msg) = None → s' = s).
Proof.
  intros Hbad.
  assert (∀ s', on_message msg now s = (Ok (), s') →
            ∀ later, loop ((msg, now) :: later) s = loop later s') as Hloop.
  { intros s' Hrun later. by rewrite loop_cons, Hrun. }
  destruct Hbad as [Hpay | node_mac data Haddr Hpay Hlacks | Hkind].
  - eexists. split; [by apply on_message_undecodable|].
    split; [by apply Hloop, on_message_undecodable|].
    destruct (addressed (topic msg)) as [[node_mac data_type]|]; simpl;
      split_and!; try done; try (by left).
    intros _ _. by eexists.
  - destruct (lacks_field_raises data Hlacks) as [e Hraise].
    eexists. split; [eapply on_message_data_raises; eassumption|].
    split; [apply Hloop; eapply on_message_data_raises; eassumption|].
    simpl. split_and!; try done; try (by left).
    + unfold Dict.getitem_default.
      destruct (Dict.get node_mac (csi_buffer s)); simpl; [by left|].
      right. by exists node_mac.
    + intros _ _. by eexists.
    + by rewrite Haddr.
  - eexists. split; [by apply on_message_unexpected_topic|].
    split; [by apply Hloop, on_message_unexpected_topic|].
    destruct (addressed (topic msg)) as [[node_mac data_type]|] eqn:Haddr;
      destruct (payload msg) as [data|] eqn:Hpay; simpl; split_and!; try done; try (by left).
    + intros _ [?|(data' & _ & _ & node_mac' & Heq)]; [done|].
      destruct (Hkind node_mac') as [Hd _]. by rewrite Heq in Hd.
    + intros _ _. by eexists.
Qed.

Section Concrete.
Import Reference.

Lemma malformed_message_is_contained_witness :
  malformed (Scenario.empty_event "n3").1
  ∧ mqtt_client (on_message (Scenario.empty_event "n3").1 (Scenario.empty_event "n3").2
                   (loop Scenario.one_round (init Scenario.triangle)).2).2
    = mqtt_client (loop Scenario.one_round (init Scenario.triangle)).2.
Proof.
  assert (malformed (Scenario.empty_event "n3").1) as Hbad.
  { apply (MissingField _ "n3" (JDict [])); [vm_compute; reflexivity|reflexivity|].
    apply Exists_cons_hd. by eexists. }
  split; [exact Hbad|].
  destruct (malformed_message_is_contained (Scenario.empty_event "n3").1
              (Scenario.empty_event "n3").2
              (loop Scenario.one_round (init Scenario.triangle)).2 Hbad)
    as (s' & Hrun & _ & _ & _ & Hmqtt & _).
  rewrite Hrun. exact Hmqtt.
Defined.

(** C9, as stated, fails: a message with a two-level topic and a payload
    that does not decode is malformed, and the handler leaves the processor as
    it was, the log included. *)
Lemma short_topic_is_not_logged :
  malformed Scenario.short_topic
  ∧ on_message Scenario.short_topic "2024-05-01T12:00:03" (init Scenario.triangle)
    = (Ok (), init Scenario.triangle)
  ∧ logger (on_message Scenario.short_topic "2024-05-01T12:00:03"
              (init Scenario.triangle)).2 = [].
Proof.
  split; [by apply Undecodable|]. split; reflexivity.
Qed.
End Concrete.


Section Concrete.
Import Reference.


(** The empty entries count: with one node reporting (a signal strength numpy
    cannot average) and two empty entries, the second report of that node
    starts a fusion cycle, which fails; without the two malformed messages no
    cycle is started. *)
Example empty_entries_trigger_calculation :
  logger (loop [Scenario.text_event "n1"; Scenario.empty_event "n2";
                Scenario.empty_event "n3"; Scenario.text_event "n1"]
            (init Scenario.triangle)).2
  = [LogError "Error processing message" (KeyError "timestamp");
     LogError "Error processing message" (KeyError "timestamp");
     LogError "Error calculating position" NumpyError]
  ∧ logger (loop [Scenario.text_event "n1"; Scenario.text_event "n1"]
              (init Scenario.triangle)).2 = [].
Proof. split; vm_compute; reflexivity. Qed.
End Concrete.

(** * Further properties *)

(** ** Topics *)

Lemma split_on_nonempty sep s : split_on sep s ≠ [].
Proof.
  destruct s as [|c s]; simpl; [done|].
  destruct (Ascii.eqb c sep); [done|]. by destruct (split_on sep s).
Qed.

Lemma concat_split_on sep s :
  String.concat (String sep EmptyString) (split_on sep s) = s.
Proof.
  induction s as [|c s IH]; simpl; [done|].
  pose proof (split_on_nonempty sep s) as Hne.
  destruct (split_on sep s) as [|w ws]; [done|].
  destruct (Ascii.eqb_spec c sep) as [->|Hc]; rewrite <- IH.
  - reflexivity.
  - by destruct ws.
Qed.

Lemma split_on_levels sep s :
  Forall (λ l, contains sep l = false) (split_on sep s).
Proof.
  induction s as [|c s IH]; simpl; [by repeat constructor|].
  destruct (Ascii.eqb c sep) eqn:Hc; [by constructor|].
  destruct (split_on sep s) as [|w ws]; [by repeat constructor; simpl; rewrite Hc|].
  apply Forall_cons in IH as [Hw Hws]. constructor; [|done]. simpl. by rewrite Hc.
Qed.

Lemma split_on_app sep w rest :
  contains sep w = false →
  split_on sep (w +:+ String sep rest) = w :: split_on sep rest.
Proof.
  induction w as [|c w IH]; simpl.
  - intros _. by rewrite Ascii.eqb_refl.
  - intros Hc. apply orb_false_iff in Hc as [Hc Hw]. rewrite Hc.
    fold (w +:+ String sep rest). by rewrite IH.
Qed.

Lemma split_on_level sep w : contains sep w = false → split_on sep w = [w].
Proof.
  induction w as [|c w IH]; simpl; [done|].
  intros Hc. apply orb_false_iff in Hc as [Hc Hw]. rewrite Hc. by rewrite IH.
Qed.

Lemma split_on_concat sep ls :
  ls ≠ [] → Forall (λ l, contains sep l = false) ls →
  split_on sep (String.concat (String sep EmptyString) ls) = ls.
Proof.
  induction ls as [|w ls IH]; [done|]. intros _ Hall.
  apply Forall_cons in Hall as [Hw Hls].
  destruct ls as [|w' ls]; simpl.
  - by apply split_on_level.
  - change (split_on sep (w +:+ String sep
              (String.concat (String sep EmptyString) (w' :: ls))) = w :: w' :: ls).
    rewrite split_on_app by done. by rewrite IH.
Qed.

(** The handler reads a message through the node and the kind its topic
    addresses, and through its payload, only. *)
Lemma on_message_by_address `{Numerics} msg msg' now s :
  addressed (topic msg) = addressed (topic msg') →
  payload msg = payload msg' →
  on_message msg now s = on_message msg' now s.
Proof.
  intros Haddr Hpay. unfold on_message.
  by rewrite !on_message_try_addressed, Haddr, Hpay.
Qed.

(** X1.  Splitting a topic at the separator and joining the parts with the
    separator are inverse to each other: the parts of any topic are levels
    (strings without separator) that join back to the topic, and a non-empty
    list of levels is what its joined topic splits into. *)
Theorem topic_split_join :
  (∀ t, String.concat "/" (split_on "/" t) = t
        ∧ Forall level (split_on "/" t)
        ∧ 1 ≤ length (split_on "/" t))
  ∧ (∀ ls, ls ≠ [] → Forall level ls → split_on "/" (String.concat "/" ls) = ls).
Proof.
  split.
  - intros t. split_and!.
    + apply concat_split_on.
    + apply split_on_levels.
    + pose proof (split_on_nonempty "/" t). destruct (split_on "/" t); simpl; [done|lia].
  - intros ls Hne Hall. by apply split_on_concat.
Qed.

(** X2.  The handler takes the node from the third level of the topic and the
    kind from the fourth, and looks at nothing else of the topic: whatever the
    first two levels are, and whatever levels follow the fourth, the message
    is handled as the one on [whofi/csi/<node>/<kind>]. *)
Theorem topic_routing `{Numerics}
    (l1 l2 node_mac kind : string) (rest : list string)
    (p : option json) (now : string) (s : processor) :
  Forall level (l1 :: l2 :: node_mac :: kind :: rest) →
  addressed (String.concat "/" (l1 :: l2 :: node_mac :: kind :: rest))
  = Some (node_mac, kind)
  ∧ on_message (Message (String.concat "/" (l1 :: l2 :: node_mac :: kind :: rest)) p)
      now s
    = on_message (Message (String.concat "/" ["whofi"; "csi"; node_mac; kind]) p)
        now s.
Proof.
  intros Hall.
  assert (∀ ls, Forall level ls → ∀ a b rest',
            ls = a :: b :: node_mac :: kind :: rest' →
            addressed (String.concat "/" ls) = Some (node_mac, kind)) as Haddr.
  { intros ls Hls a b rest' ->. unfold addressed.
    rewrite split_on_concat by done. done. }
  split; [by eapply Haddr|].
  apply on_message_by_address; [|done].
  etrans; [exact (Haddr _ Hall l1 l2 rest eq_refl)|].
  symmetry. apply (Haddr ["whofi"; "csi"; node_mac; kind]) with "whofi" "csi" [];
    [|done].
  apply Forall_cons in Hall as [_ Hall]. apply Forall_cons in Hall as [_ Hall].
  apply Forall_cons in Hall as [Hn Hall]. apply Forall_cons in Hall as [Hk _].
  by repeat constructor.
Qed.

Section Concrete.
Import Reference.

Lemma topic_routing_witness :
  Forall level ["home"; "lab"; "n1"; "data"; "raw"]
  ∧ addressed "home/lab/n1/data/raw" = Some ("n1", "data").
Proof.
  assert (Forall level ["home"; "lab"; "n1"; "data"; "raw"]) as Hall
    by (repeat constructor).
  split; [exact Hall|].
  exact (proj1 (topic_routing "home" "lab" "n1" "data" ["raw"] None
                  "2024-05-01T12:00:00" (init Scenario.triangle) Hall)).
Defined.
End Concrete.



(** ** Statistics *)

(** The statistics after a message: the record of a stats message is stored
    under its node; no other message changes them. *)
Lemma on_message_nodes `{Numerics} msg now s :
  nodes (on_message msg now s).2 =
    match stats_record msg now with
    | Some (k, r) => <[k:=r]> (nodes s)
    | None => nodes s
    end.
Proof.
  unfold on_message, stats_record. rewrite on_message_try_addressed.
  destruct (addressed (topic msg)) as [[node_mac data_type]|]; [|done].
  run. destruct (payload msg) as [data|]; simpl; [|done].
  destruct (decide (data_type = "data")) as [->|Hdata]; simpl.
  - pose proof (process_csi_data_run node_mac data now s) as Hrun.
    simpl in Hrun. destruct (sample_of data) as [sample|e].
    + destruct Hrun as [l ->]. simpl. by destruct data.
    + rewrite Hrun. simpl. by destruct data.
  - destruct (decide (data_type = "stats")) as [->|Hstats]; simpl.
    + pose proof (update_node_stats_run node_mac data now s) as Hrun.
      destruct data; by rewrite Hrun.
    + by destruct data.
Qed.

(** X5.  After any run, the statistics of a node are the record of the last
    stats message with a JSON object as payload that addressed it (packets,
    enabled and uptime as given, 0, false and 0 when absent, and the clock
    reading of that message), and no record at all when there was none.
    Data messages, stats messages of other nodes and stats messages whose
    payload is not an object leave the record alone. *)
Theorem stats_are_the_last_report `{Numerics}
    (registry : gmap string (list float)) (events : list (message * string))
    (node_mac : string) :
  nodes (loop events (init registry)).2 !! node_mac
  = last (stats_for node_mac events).
Proof.
  enough (∀ s, nodes (loop events s).2 !! node_mac
               = match last (stats_for node_mac events) with
                 | Some r => Some r
                 | None => nodes s !! node_mac
                 end) as Hgen.
  { rewrite Hgen. simpl. rewrite lookup_empty. by destruct (last _). }
  induction events as [|[msg now] events IH]; intros s; [done|].
  rewrite loop_cons, IH, on_message_nodes. unfold stats_for. simpl.
  fold (stats_for node_mac events).
  destruct (stats_record msg now) as [[k r]|]; [|done].
  destruct (decide (k = node_mac)) as [->|Hk].
  - rewrite last_cons, lookup_insert_eq. by destruct (last _).
  - by rewrite lookup_insert_ne.
Qed.

(** ** Cycles *)

Lemma get_is_Some {V} k (d : list (string * V)) :
  k ∈ Dict.keys d → is_Some (Dict.get k d).
Proof.
  intros Hk. destruct (Dict.get k d) eqn:Hget; [by eexists|].
  by apply get_None in Hget.
Qed.

(** The solve succeeds exactly on [solvable] distances. *)
Lemma trilaterate_try_solvable positions distances :
  (∃ position, trilaterate_try positions distances = Ok position)
  ↔ solvable positions distances.
Proof.
  split.
  - intros [position Htry]. unfold trilaterate_try, position_of, index in Htry.
    destruct distances as [|[k1 v1] [|[k2 v2] [|[k3 v3] rest]]]; simpl in Htry;
      try done.
    + by destruct (positions !! k1).
    + destruct (positions !! k1); simpl in Htry; [|done].
      by destruct (positions !! k2).
    + destruct (positions !! k1) as [p1|] eqn:H1; simpl in Htry; [|done].
      destruct (positions !! k2) as [p2|] eqn:H2; simpl in Htry; [|done].
      destruct (positions !! k3) as [p3|] eqn:H3; simpl in Htry; [|done].
      destruct (Dict.getitem k1 _); simpl in Htry; [|done].
      destruct (Dict.getitem k2 _); simpl in Htry; [|done].
      destruct (Dict.getitem k3 _); simpl in Htry; [|done].
      destruct p2 as [|x2 [|y2 p2]]; simpl in Htry; try done;
        destruct p1 as [|x1 [|y1 p1]]; simpl in Htry; try done.
      destruct p3 as [|x3 [|y3 p3]]; simpl in Htry; try done.
      exists k1, k2, k3, rest.*1. split; [done|].
      repeat constructor; eexists; (split; [eassumption|simpl; lia]).
  - intros (k1 & k2 & k3 & rest & Hkeys & Hall).
    apply Forall_cons in Hall as [(p1 & H1 & Hp1) Hall].
    apply Forall_cons in Hall as [(p2 & H2 & Hp2) Hall].
    apply Forall_cons in Hall as [(p3 & H3 & Hp3) _].
    assert (∀ k, k ∈ [k1; k2; k3] → ∃ r, Dict.getitem k distances = Ok r) as Hget.
    { intros k Hk. unfold Dict.getitem.
      destruct (get_is_Some k distances) as [r ->]; [|by eexists].
      rewrite Hkeys. change (k ∈ [k1; k2; k3] ++ rest). apply elem_of_app. by left. }
    destruct (Hget k1) as [r1 Hr1]; [apply elem_of_cons; by left|].
    destruct (Hget k2) as [r2 Hr2]; [do 1 (apply elem_of_cons; right); apply elem_of_cons; by left|].
    destruct (Hget k3) as [r3 Hr3]; [do 2 (apply elem_of_cons; right); apply elem_of_cons; by left|].
    unfold trilaterate_try, position_of, index. rewrite Hkeys. simpl.
    rewrite H1. simpl. rewrite H2. simpl. rewrite H3. simpl.
    rewrite Hr1, Hr2, Hr3. simpl.
    destruct p1 as [|x1 [|y1 p1]]; simpl in Hp1; try lia.
    destruct p2 as [|x2 [|y2 p2]]; simpl in Hp2; try lia.
    destruct p3 as [|x3 [|y3 p3]]; simpl in Hp3; try lia.
    simpl. by eexists.
Qed.

(** X6.  The solve returns a position exactly when there are three distances
    whose nodes are in the registry with positions of at least two
    coordinates, and then it touches nothing.  In every other case (fewer
    than three distances, a node that is not registered, a position with
    fewer than two coordinates) it returns [None] and logs one
    "Trilateration error"; it never raises.  The geometry plays no part. *)
Theorem trilaterate_outcome (distances : list (string * float)) (s : processor) :
  (solvable (node_positions s) distances →
   ∃ position, trilaterate distances s = (Ok (Some position), s))
  ∧ (¬ solvable (node_positions s) distances →
     ∃ e, trilaterate distances s
          = (Ok None, log_emit (LogError "Trilateration error" e) s)).
Proof.
  rewrite trilaterate_run.
  pose proof (trilaterate_try_solvable (node_positions s) distances) as Hiff.
  destruct (trilaterate_try (node_positions s) distances) as [position|e]; split.
  - intros _. by exists position.
  - intros Hnot. exfalso. apply Hnot, Hiff. by exists position.
  - intros Hsolv. apply Hiff in Hsolv as [position Hpos]. done.
  - intros _. by exists e.
Qed.

Section Cycles.
Context `{Numerics}.

Lemma estimate_distances_raises positions items acc :
  Exists (λ item, np_mean (rssi <$> last_n 10 item.2) = None)
    (List.filter (qualifies positions) items) →
  estimate_distances positions items acc = Raise NumpyError.
Proof.
  revert acc. induction items as [|[k buffer] items IH]; intros acc; simpl.
  - intros Hex. by apply Exists_nil in Hex.
  - destruct (qualifies positions (k, buffer)); simpl; [|by apply IH].
    unfold estimate_distance.
    destruct (np_mean (rssi <$> last_n 10 buffer)) as [m|] eqn:Hm; simpl; [|done].
    intros Hex. apply Exists_cons in Hex as [Hex|Hex]; [|by apply IH].
    simpl in Hex. congruence.
Qed.

Lemma calculate_position_raises now s e :
  estimate_distances (node_positions s) (csi_buffer s) [] = Raise e →
  calculate_position now s
  = (Ok (), log_emit (LogError "Error calculating position" e) s).
Proof. intros He. unfold calculate_position. run. by rewrite He. Qed.

Lemma calculate_position_publishes now s distances position :
  estimate_distances (node_positions s) (csi_buffer s) [] = Ok distances →
  3 ≤ length distances →
  trilaterate_try (node_positions s) distances = Ok position →
  calculate_position now s
  = (Ok (), Processor (node_positions s) (nodes s) (csi_buffer s)
              (mqtt_client s ++ publications position now)
              (logger s ++ [LogInfo "Published position"])).
Proof.
  intros Hd Hlen Hp. unfold calculate_position, solve_and_publish. run.
  rewrite Hd. simpl. destruct (Nat.leb_spec 3 (length distances)); [|lia].
  rewrite trilaterate_run, Hp. simpl.
  unfold log_emit, publish, publications. simpl. by rewrite <- (assoc_L (++)).
Qed.

Lemma data_sample_inv msg node_mac r :
  data_sample msg = Some (node_mac, r) →
  ∃ data, addressed (topic msg) = Some (node_mac, "data")
          ∧ payload msg = Some data ∧ sample_of data = r.
Proof.
  unfold data_sample.
  destruct (addressed (topic msg)) as [[k data_type]|]; [|done].
  destruct (payload msg) as [data|]; [|done].
  case_decide; [|done]. intros [= -> <-]. subst. by exists data.
Qed.

(** A data message with a complete sample: the sample is appended, and a
    cycle runs when the buffers have three entries. *)
Lemma on_message_accepts msg now s node_mac sample :
  data_sample msg = Some (node_mac, Ok sample) →
  on_message msg now s =
    let s' := set_csi_buffer (next_buffer msg (csi_buffer s)) s in
    if 3 <=? length (csi_buffer s') then calculate_position now s' else (Ok (), s').
Proof.
  intros Hsample. unfold next_buffer. rewrite Hsample.
  apply data_sample_inv in Hsample as (data & Haddr & Hpay & Hs).
  unfold on_message. rewrite on_message_try_addressed, Haddr, Hpay. run.
  unfold process_csi_data, csi_buffer_getitem, csi_buffer_append. run.
  destruct (Dict.getitem_default [] node_mac (csi_buffer s)) as [buffer b'].
  simpl. rewrite Hs. simpl.
  destruct (3 <=? _); [|done].
  change (set_csi_buffer ?b (set_csi_buffer b' s)) with (set_csi_buffer b s).
  match goal with |- context [calculate_position now ?s1] =>
    by destruct (calculate_position_run now s1) as [l ->] end.
Qed.
End Cycles.

(** X7.  One node is enough to block every position: when a data sample
    arrives, the buffers have three entries and numpy cannot average the
    recent signal strengths of some qualifying node, the handler stores the
    sample, publishes nothing and logs one "Error calculating position",
    however many other nodes have good data. *)
Theorem undefined_mean_blocks_publication `{Numerics}
    (msg : message) (now : string) (s : processor) (node_mac : string)
    (sample : measurement) :
  data_sample msg = Some (node_mac, Ok sample) →
  3 ≤ length (next_buffer msg (csi_buffer s)) →
  Exists (λ item, np_mean (rssi <$> last_n 10 item.2) = None)
    (List.filter (qualifies (node_positions s)) (next_buffer msg (csi_buffer s))) →
  on_message msg now s
  = (Ok (), Processor (node_positions s) (nodes s) (next_buffer msg (csi_buffer s))
              (mqtt_client s)
              (logger s ++ [LogError "Error calculating position" NumpyError])).
Proof.
  intros Hsample Hlen Hbad.
  rewrite (on_message_accepts _ _ _ _ _ Hsample). simpl.
  destruct (Nat.leb_spec 3 (length (next_buffer msg (csi_buffer s)))); [|lia].
  by rewrite (calculate_position_raises _ _ NumpyError)
    by (by apply estimate_distances_raises).
Qed.

Section Concrete.
Import Reference.

Lemma undefined_mean_blocks_publication_witness :
  data_sample (Scenario.data_event "n3" 3 (-36)).1
  = Some ("n3", Ok (Scenario.sample 3 (-36)))
  ∧ mqtt_client (on_message (Scenario.data_event "n3" 3 (-36)).1
                   (Scenario.data_event "n3" 3 (-36)).2
                   (reached Scenario.triangle Scenario.text_then_two)).2 = [].
Proof.
  assert (data_sample (Scenario.data_event "n3" 3 (-36)).1
          = Some ("n3", Ok (Scenario.sample 3 (-36)))) as Hsample
    by (vm_compute; reflexivity).
  split; [exact Hsample|].
  rewrite (undefined_mean_blocks_publication _ _ _ _ _ Hsample).
  - vm_compute. reflexivity.
  - vm_compute. lia.
  - apply Exists_exists. exists ("n1", [Measurement (JInt 1) (JStr "weak") (JList [])
                                          (JInt 6) (JInt 11)]).
    split; [|vm_compute; reflexivity].
    apply list_elem_of_In. vm_compute. by left.
Defined.
End Concrete.

(** X8.  With a registry whose positions all have two coordinates, a data
    sample that leaves at least three qualifying nodes, all with signal
    strengths numpy can average, always publishes: the handler stores the
    sample, publishes the position record and the tracker record of the solve
    on the first three qualifying nodes, and logs the publication.  This
    holds whether or not the node of the sample is in the registry, and
    whatever the geometry of the three anchors. *)
Theorem quorum_publishes `{Numerics}
    (registry : gmap string (list float)) (events : list (message * string))
    (msg : message) (now : string) (node_mac : string) (sample : measurement) :
  planar registry →
  data_sample msg = Some (node_mac, Ok sample) →
  3 ≤ length (List.filter (qualifies registry)
                (next_buffer msg (csi_buffer (reached registry events)))) →
  Forall (λ item, is_Some (np_mean (rssi <$> last_n 10 item.2)))
    (List.filter (qualifies registry)
       (next_buffer msg (csi_buffer (reached registry events)))) →
  ∃ distances position,
    estimate_distances registry
      (next_buffer msg (csi_buffer (reached registry events))) [] = Ok distances
    ∧ trilaterate_try registry (take 3 distances) = Ok position
    ∧ on_message msg now (reached registry events)
      = (Ok (), Processor registry (nodes (reached registry events))
                  (next_buffer msg (csi_buffer (reached registry events)))
                  (mqtt_client (reached registry events)
                     ++ publications position now)
                  (logger (reached registry events)
                     ++ [LogInfo "Published position"])).
Proof.
  intros Hplanar Hsample Hquorum Hmeans.
  set (s := reached registry events) in *.
  set (nb := next_buffer msg (csi_buffer s)) in *.
  assert (node_positions s = registry) as Hpos by apply loop_positions.
  assert (NoDup (Dict.keys nb)) as Hnd by apply next_buffer_NoDup, loop_NoDup.
  destruct (estimate_distances_ok registry nb []) as [distances Hd].
  { eapply Forall_impl; [exact Hmeans|]. intros [k d] [m Hm]. simpl in *.
    unfold estimate_distance. rewrite Hm. by eexists. }
  destruct (estimate_distances_exact registry nb [] distances)
    as (new & Heq & Hnew); [done|done|]. simpl in Heq. subst new.
  pose proof (estimates_keys _ _ Hnew) as Hkeys.
  assert (length distances = length (List.filter (qualifies registry) nb)) as Hlen.
  { pose proof (f_equal length Hkeys) as Hl. unfold Dict.keys in Hl.
    by rewrite ?length_fmap, ?length_map in Hl. }
  assert (solvable registry distances) as Hsolv.
  { assert (∀ k, k ∈ Dict.keys distances →
              ∃ p, registry !! k = Some p ∧ 2 ≤ length p) as Hreg.
    { intros k Hk. rewrite Hkeys in Hk.
      apply list_elem_of_fmap in Hk as ([k' d'] & -> & Hk).
      apply list_elem_of_In, List.filter_In in Hk as [_ Hq].
      unfold qualifies in Hq. apply andb_true_iff in Hq as [Hq _].
      apply bool_decide_eq_true in Hq as [p Hp]. simpl in Hp.
      exists p. split; [done|]. by eapply Hplanar. }
    destruct (Dict.keys distances) as [|k1 [|k2 [|k3 rest]]] eqn:Hk;
      try (apply (f_equal length) in Hk; unfold Dict.keys in Hk;
           rewrite ?length_fmap, ?length_map in Hk; simpl in Hk; lia).
    exists k1, k2, k3, rest. split; [done|].
    repeat constructor; apply Hreg; set_solver. }
  apply trilaterate_try_solvable in Hsolv as [position Hp].
  exists distances, position. split; [done|].
  split; [by rewrite trilaterate_try_take|].
  rewrite (on_message_accepts _ _ _ _ _ Hsample). simpl. fold nb.
  assert (3 ≤ length nb) as Hnb.
  { etrans; [exact Hquorum|]. apply List.filter_length_le. }
  destruct (Nat.leb_spec 3 (length nb)); [|lia].
  rewrite (calculate_position_publishes _ _ distances position); simpl;
    rewrite ?Hpos; try done; lia.
Qed.

Section Concrete.
Import Reference.

Lemma quorum_publishes_witness :
  planar Scenario.triangle
  ∧ mqtt_client
      (on_message (Scenario.data_event "zz" 4 (-70)).1
         (Scenario.data_event "zz" 4 (-70)).2
         (reached Scenario.triangle Scenario.one_round)).2
    ≠ mqtt_client (reached Scenario.triangle Scenario.one_round).
Proof.
  assert (planar Scenario.triangle) as Hplanar.
  { intros k p Hp. unfold Scenario.triangle in Hp.
    apply elem_of_list_to_map_2 in Hp.
    repeat (apply elem_of_cons in Hp as [[= _ ->]|Hp]; [simpl; lia|]).
    by apply elem_of_nil in Hp. }
  split; [exact Hplanar|].
  assert (next_buffer (Scenario.data_event "zz" 4 (-70)).1
            (csi_buffer (reached Scenario.triangle Scenario.one_round))
          = [("n1", [Scenario.sample 1 (-36)]); ("n2", [Scenario.sample 2 (-36)]);
             ("n3", [Scenario.sample 3 (-36)]); ("zz", [Scenario.sample 4 (-70)])])
    as Hnb by (vm_compute; reflexivity).
  destruct (quorum_publishes Scenario.triangle Scenario.one_round
              (Scenario.data_event "zz" 4 (-70)).1 (Scenario.data_event "zz" 4 (-70)).2
              "zz" (Scenario.sample 4 (-70)) Hplanar)
    as (distances & position & _ & _ & ->).
  - vm_compute. reflexivity.
  - rewrite Hnb. vm_compute. lia.
  - rewrite Hnb.
    change (List.filter (qualifies Scenario.triangle) _)
      with [("n1", [Scenario.sample 1 (-36)]); ("n2", [Scenario.sample 2 (-36)]);
            ("n3", [Scenario.sample 3 (-36)])].
    repeat (apply Forall_cons; split; [by eexists|]). constructor.
  - simpl. intros Heq. apply (f_equal length) in Heq.
    rewrite length_app in Heq. simpl in Heq. lia.
Defined.
End Concrete.

(** ** Runs *)

Section Runs.
Implicit Types (b : list (string * list measurement)) (msgs : list message).

Lemma touched_snoc msgs msg :
  touched (msgs ++ [msg])
  = touched msgs ++ match data_sample msg with
                    | Some (node_mac, _) => [node_mac]
                    | None => []
                    end.
Proof.
  unfold touched. rewrite omap_app. simpl.
  by destruct (data_sample msg) as [[node_mac r]|].
Qed.

Lemma first_heard_elem msgs k : k ∈ first_heard msgs ↔ k ∈ touched msgs.
Proof.
  unfold first_heard. by rewrite elem_of_reverse, elem_of_remove_dups, elem_of_reverse.
Qed.

Lemma first_heard_snoc msgs msg :
  first_heard (msgs ++ [msg])
  = match data_sample msg with
    | Some (node_mac, _) =>
        if decide (node_mac ∈ first_heard msgs) then first_heard msgs
        else first_heard msgs ++ [node_mac]
    | None => first_heard msgs
    end.
Proof.
  unfold first_heard at 1. rewrite touched_snoc.
  destruct (data_sample msg) as [[node_mac r]|]; [|by rewrite app_nil_r].
  rewrite reverse_app. change (reverse [node_mac]) with [node_mac]. simpl.
  destruct (decide_rel _ _ _) as [Hin|Hin];
    rewrite elem_of_reverse, <- first_heard_elem in Hin.
  - by rewrite decide_True.
  - rewrite decide_False by done. by rewrite reverse_cons.
Qed.

Lemma buffers_keys msgs :
  Dict.keys (fold_left (λ b msg, next_buffer msg b) msgs []) = first_heard msgs.
Proof.
  induction msgs as [|msg msgs IH] using rev_ind; [done|].
  rewrite fold_left_app. simpl.
  by rewrite next_buffer_keys, first_heard_snoc, IH.
Qed.
End Runs.

(** X9.  The buffers after any run from [__init__]: their nodes are the nodes
    of the data messages that reached [process_csi_data], each once, in the
    order in which they were first heard; the buffer of such a node holds
    its last 100 complete samples in arrival order (all of them when there
    are fewer, none when every payload of the node lacked a field), and
    other nodes have no buffer. *)
Theorem buffers_after_a_run `{Numerics}
    (registry : gmap string (list float)) (events : list (message * string)) :
  Dict.keys (csi_buffer (reached registry events)) = first_heard events.*1
  ∧ NoDup (first_heard events.*1)
  ∧ ∀ node_mac,
      Dict.get node_mac (csi_buffer (reached registry events))
      = if decide (node_mac ∈ touched events.*1)
        then Some (last_n 100 (samples_for node_mac events.*1))
        else None.
Proof.
  unfold reached. rewrite loop_csi_buffer. simpl.
  split; [apply buffers_keys|].
  split; [unfold first_heard; rewrite reverse_Permutation; apply NoDup_remove_dups|].
  intros node_mac.
  pose proof (buffers_get node_mac events.*1 []) as Hget. simpl in Hget.
  rewrite deque_appends in Hget by (simpl; unfold maxlen; lia). simpl in Hget.
  case_decide as Hin.
  - destruct (get_is_Some node_mac
                (fold_left (λ b msg, next_buffer msg b) events.*1 [])) as [d Hd].
    { rewrite buffers_keys. by apply first_heard_elem. }
    rewrite Hd in Hget |- *. simpl in Hget. by rewrite Hget.
  - apply get_None. rewrite buffers_keys. by rewrite first_heard_elem.
Qed.

Section Containment.
Context `{Numerics}.

Lemma calculate_position_logger now s :
  ∃ l, logger (calculate_position now s).2 = logger s ++ l ∧ length l ≤ 1.
Proof.
  destruct s as [pos nd b out lg].
  unfold calculate_position, solve_and_publish.
  run. destruct (estimate_distances pos b []) as [distances|e]; simpl.
  - destruct (3 <=? length distances); simpl.
    + rewrite trilaterate_run. simpl.
      destruct (trilaterate_try pos distances) as [position|e]; simpl.
      * exists [LogInfo "Published position"]. split; [done|simpl; lia].
      * exists [LogError "Trilateration error" e]. split; [done|simpl; lia].
    + exists []. rewrite app_nil_r. split; [done|simpl; lia].
  - exists [LogError "Error calculating position" e]. split; [done|simpl; lia].
Qed.

Lemma on_message_logger msg now s :
  ∃ l, logger (on_message msg now s).2 = logger s ++ l ∧ length l ≤ 1.
Proof.
  assert (∃ l, logger s = logger s ++ l ∧ length l ≤ 1) as Hsame.
  { exists []. rewrite app_nil_r. split; [done|simpl; lia]. }
  destruct (addressed (topic msg)) as [[k data_type]|] eqn:Haddr.
  2:{ rewrite on_message_unexpected_topic by (intros k; by rewrite Haddr).
      by rewrite Haddr. }
  destruct (payload msg) as [data|] eqn:Hpay.
  2:{ rewrite on_message_undecodable, Haddr by done. simpl.
      eexists. split; [done|simpl; lia]. }
  destruct (decide (data_type = "data")) as [->|Hdata].
  - destruct (sample_of data) as [sample|e] eqn:Hs.
    + rewrite (on_message_accepts _ _ _ k sample)
        by (unfold data_sample; by rewrite Haddr, Hpay, decide_True, Hs).
      simpl. destruct (3 <=? _); [|done].
      match goal with |- context [calculate_position now ?s1] =>
        destruct (calculate_position_logger now s1) as (l & -> & Hl) end.
      by exists l.
    + rewrite (on_message_data_raises _ _ _ k data e) by done. simpl.
      eexists. split; [done|simpl; lia].
  - destruct (decide (data_type = "stats")) as [->|Hstats].
    + rewrite (on_message_stats _ _ _ k), Hpay by done.
      destruct data; simpl; try done; eexists; (split; [done|simpl; lia]).
    + rewrite on_message_unexpected_topic, Haddr, Hpay; [done|].
      intros k'. split; congruence.
Qed.

Lemma published_on_length positions msg now b :
  length (published_on positions msg now b) ≤ 2.
Proof.
  unfold published_on, cycle_publications.
  destruct (data_sample msg) as [[k [sample|e]]|]; simpl; try lia.
  destruct (3 <=? _); simpl; [|lia].
  destruct (cycle_position _ _); simpl; lia.
Qed.

Lemma next_buffer_prefix msg b :
  Dict.keys b `prefix_of` Dict.keys (next_buffer msg b).
Proof.
  rewrite next_buffer_keys. destruct (data_sample msg) as [[k r]|]; [|done].
  case_decide; [done|]. by apply prefix_app_r.
Qed.

(** What [on_message] publishes: nothing, or the two records of one
    position, stamped with the clock reading of the message. *)
Lemma published_on_pair positions msg now b :
  published_on positions msg now b = []
  ∨ ∃ position, published_on positions msg now b = publications position now.
Proof.
  unfold published_on, cycle_publications.
  destruct (data_sample msg) as [[k [sample|e]]|]; try (by left).
  destruct (3 <=? _); [|by left].
  destruct (cycle_position _ _) as [position|]; [|by left].
  right. by exists position.
Qed.

Lemma published_along_pairs positions events b :
  ∃ fixes : list ((float * float) * string),
    published_along positions events b = fixes ≫= (λ f, publications f.1 f.2)
    ∧ fixes.*2 `sublist_of` events.*2.
Proof.
  revert b. induction events as [|[msg now] events IH]; intros b; simpl.
  - by exists [].
  - destruct (IH (next_buffer msg b)) as (fixes & -> & Hsub).
    destruct (published_on_pair positions msg now b) as [->|[position ->]].
    + exists fixes. split; [done|]. by apply sublist_cons.
    + exists ((position, now) :: fixes). split; [done|]. by apply sublist_skip.
Qed.

Lemma recent_alike_distances positions b b' acc :
  recent_alike b b' →
  estimate_distances positions b acc = estimate_distances positions b' acc.
Proof.
  intros Halike. revert acc.
  induction Halike as [|[k d] [k' d'] b b' [Hk Hd] _ IH]; intros acc; [done|].
  simpl in *. subst k'.
  assert (length d `min` 10 = length d' `min` 10) as Hlen.
  { apply (f_equal length) in Hd. rewrite !length_fmap, !last_n_length in Hd. lia. }
  assert (qualifies positions (k, d) = qualifies positions (k, d')) as ->.
  { unfold qualifies. simpl. f_equal.
    destruct (Nat.ltb_spec 0 (length d)), (Nat.ltb_spec 0 (length d')); try done; lia. }
  destruct (qualifies positions (k, d')); [|apply IH].
  unfold estimate_distance. rewrite Hd.
  destruct (np_mean _); simpl; [apply IH|done].
Qed.
End Containment.

(** X10.  Nothing the broker delivers stops the processor or makes it forget:
    from any state, a run of messages returns normally, leaves the registry
    as it was, only appends to what has been published (at most two records
    per message) and to the log (at most one record per message), keeps
    every buffer entry in its place in the iteration order and a statistics
    record for every node that had one, and never lowers the number of
    qualifying nodes, however long a node has been silent. *)
Theorem run_is_contained `{Numerics}
    (events : list (message * string)) (s : processor) :
  (loop events s).1 = Ok ()
  ∧ node_positions (loop events s).2 = node_positions s
  ∧ (∃ out, mqtt_client (loop events s).2 = mqtt_client s ++ out
            ∧ length out ≤ 2 * length events)
  ∧ (∃ l, logger (loop events s).2 = logger s ++ l ∧ length l ≤ length events)
  ∧ Dict.keys (csi_buffer s) `prefix_of` Dict.keys (csi_buffer (loop events s).2)
  ∧ (∀ k, is_Some (nodes s !! k) → is_Some (nodes (loop events s).2 !! k))
  ∧ length (qualifying s) ≤ length (qualifying (loop events s).2).
Proof.
  split; [apply loop_ok|]. split; [apply loop_positions|].
  split_and!; [| | | |apply loop_qualifying_mono].
  - rewrite loop_mqtt_client. eexists. split; [done|].
    generalize (csi_buffer s) as b.
    induction events as [|[msg now] events IH]; intros b; simpl; [lia|].
    rewrite length_app. pose proof (published_on_length (node_positions s) msg now b).
    specialize (IH (next_buffer msg b)). lia.
  - revert s. induction events as [|[msg now] events IH]; intros s.
    + exists []. by rewrite app_nil_r.
    + rewrite loop_cons. destruct (IH (on_message msg now s).2) as (l' & -> & Hl').
      destruct (on_message_logger msg now s) as (l & -> & Hl).
      exists (l ++ l'). rewrite (assoc_L (++)). split; [done|].
      rewrite length_app. simpl. lia.
  - revert s. induction events as [|[msg now] events IH]; intros s; [done|].
    rewrite loop_cons. etrans; [|apply IH].
    rewrite on_message_csi_buffer. apply next_buffer_prefix.
  - revert s. induction events as [|[msg now] events IH]; intros s k Hk; [done|].
    rewrite loop_cons. apply IH. rewrite on_message_nodes.
    destruct (stats_record msg now) as [[k' r]|]; [|done].
    rewrite lookup_insert_is_Some. destruct (decide (k' = k)); auto.
Qed.

(** X11.  What a run from [__init__] publishes is a sequence of position
    fixes, each as two consecutive records (the position record, then the
    tracker record of the same point); the timestamps of the fixes are clock
    readings of the run's messages, in their order, at most one fix per
    message. *)
Theorem publications_follow_the_clock `{Numerics}
    (registry : gmap string (list float)) (events : list (message * string)) :
  ∃ fixes : list ((float * float) * string),
    mqtt_client (reached registry events)
    = fixes ≫= (λ f, [ ("homeassistant/sensor/whofi_position/state",
                         position_payload f.1 f.2);
                        ("homeassistant/device_tracker/whofi_tracker/attributes",
                         tracker_payload f.1) ])
    ∧ Forall (λ f, json_getitem (position_payload f.1 f.2) "timestamp" = Ok (JStr f.2))
        fixes
    ∧ fixes.*2 `sublist_of` events.*2.
Proof.
  unfold reached. rewrite loop_mqtt_client. simpl.
  destruct (published_along_pairs registry events []) as (fixes & -> & Hsub).
  exists fixes. split; [done|]. split; [|done].
  by apply Forall_forall.
Qed.

(** X12.  A position depends on the stored samples only through the signal
    strengths of the ten most recent samples of each node: buffers with the
    same nodes in the same order that agree on those give the same cycle,
    whatever their older samples and whatever the timestamps, channels, rates
    and CSI data of the samples. *)
Theorem only_recent_rssi_matters `{Numerics}
    (positions : gmap string (list float))
    (b b' : list (string * list measurement)) (now : string) :
  recent_alike b b' →
  estimate_distances positions b [] = estimate_distances positions b' []
  ∧ cycle_position positions b = cycle_position positions b'
  ∧ cycle_publications positions b now = cycle_publications positions b' now.
Proof.
  intros Halike.
  pose proof (recent_alike_distances positions b b' [] Halike) as Hd.
  split; [done|].
  assert (cycle_position positions b = cycle_position positions b') as Hc
    by (unfold cycle_position; by rewrite Hd).
  split; [done|]. unfold cycle_publications. by rewrite Hc.
Qed.

Section Concrete.
Import Reference.

Lemma only_recent_rssi_matters_witness :
  recent_alike Scenario.other_burst_buffer Scenario.recent_buffer
  ∧ cycle_position Scenario.triangle Scenario.other_burst_buffer
    = cycle_position Scenario.triangle Scenario.recent_buffer.
Proof.
  assert (recent_alike Scenario.other_burst_buffer Scenario.recent_buffer) as Halike.
  { repeat (apply Forall2_cons; split; [split; vm_compute; reflexivity|]).
    constructor. }
  split; [exact Halike|].
  apply (only_recent_rssi_matters Scenario.triangle _ _ "2024-05-01T12:00:00" Halike).
Defined.
End Concrete.
